(** * tundialer: the interface-bound TCP connector

    A shallow embedding of [src/tundialer-native/tundialer.c].  The native
    function [Connect] receives three JavaScript values, creates a TCP
    socket, binds it to a network interface with [SO_BINDTODEVICE], turns
    on [TCP_NODELAY], parses the IPv4 literal and connects.  It returns the
    descriptor as a JavaScript number, or throws and returns [NULL].

    The function is embedded as a computation in a state monad over a
    [world]: the descriptor table of the process, [errno], the log of the
    calls made to the C library and the kernel, and the JavaScript
    exception pending in the Node-API environment.  Whatever the kernel and
    the host decide during one invocation is read from an [environment]. *)

From Stdlib Require Import ZArith String List Bool Lia.
From stdpp Require Import gmap sets.
Import ListNotations.
Local Open Scope Z_scope.

(** ** JavaScript values *)

(** A JavaScript number is an IEEE double: a finite value [m * 2^e], a NaN
    or an infinity. *)
Inductive js_number : Type :=
| Finite (m e : Z)
| NaN
| Infinity (negative : bool).

(** A JavaScript string is the sequence of its code points, each in
    [0, 0x10FFFF]; an unpaired surrogate is an entry in [0xD800, 0xDFFF]. *)
Inductive napi_value : Type :=
| JsUndefined
| JsBoolean (b : bool)
| JsNumber (d : js_number)
| JsString (s : list Z)
| JsObject.

(** The error object made by [napi_throw_error]: its [code] property, when
    one is given, and its message. *)
Record js_error : Type := JsError {
  err_code : option string;
  err_message : string
}.

Inductive napi_status : Type :=
| napi_ok
| napi_invalid_arg
| napi_string_expected
| napi_number_expected
| napi_generic_failure
| napi_pending_exception.

Definition is_napi_ok (st : napi_status) : bool :=
  match st with napi_ok => true | _ => false end.

(** ** Constants of the Linux headers *)

Definition IFNAMSIZ : Z := 16.
Definition INET_ADDRSTRLEN : Z := 16.
Definition AF_INET : Z := 2.
Definition SOCK_STREAM : Z := 1.

(** ** UTF-8 and C strings *)

Definition utf8_cont (x : Z) : Z := Z.lor 0x80 (Z.land x 0x3F).

(** The bytes V8 writes for one code point; an unpaired surrogate is
    written as U+FFFD. *)
Definition utf8_encode (c : Z) : list Z :=
  if c <? 0x80 then [c]
  else if c <? 0x800 then [Z.lor 0xC0 (Z.shiftr c 6); utf8_cont c]
  else if (0xD800 <=? c) && (c <=? 0xDFFF) then [0xEF; 0xBF; 0xBD]
  else if c <? 0x10000 then
    [Z.lor 0xE0 (Z.shiftr c 12); utf8_cont (Z.shiftr c 6); utf8_cont c]
  else
    [Z.lor 0xF0 (Z.shiftr c 18); utf8_cont (Z.shiftr c 12);
     utf8_cont (Z.shiftr c 6); utf8_cont c].

Definition utf8 (s : list Z) : list Z := concat (map utf8_encode s).

(** [WriteUtf8 capacity s]: the bytes copied into a buffer with room for
    [capacity] bytes. Only whole characters are written; the copy stops at
    the first character that does not fit. *)
Fixpoint WriteUtf8 (capacity : Z) (s : list Z) : list Z :=
  match s with
  | [] => []
  | c :: s' =>
      let bs := utf8_encode c in
      let n := Z.of_nat (List.length bs) in
      if n <=? capacity then bs ++ WriteUtf8 (capacity - n) s' else []
  end.

(** A [char] array as a C string: the bytes before the first NUL. The
    array is the list of bytes copied into it; the terminator that follows
    them is implicit. *)
Fixpoint c_str (buf : list Z) : list Z :=
  match buf with
  | [] => []
  | b :: buf' => if b =? 0 then [] else b :: c_str buf'
  end.

Definition strlen (buf : list Z) : Z := Z.of_nat (List.length (c_str buf)).

(** The option value [(buf, optlen)] given to [setsockopt]: the first
    [optlen] bytes of [buf]. *)
Definition optval (buf : list Z) (optlen : Z) : list Z :=
  take (Z.to_nat optlen) buf.

(** ** Node-API value getters *)

(** [napi_get_cb_info] with room for [capacity] arguments: the status, the
    number of arguments the caller passed, and the [args] array (missing
    arguments are [undefined]). *)
Definition napi_get_cb_info (st : napi_status) (info : list napi_value)
    (capacity : nat) : napi_status * Z * list napi_value :=
  (st, Z.of_nat (List.length info),
   firstn capacity (info ++ repeat JsUndefined capacity)).

(** [napi_get_value_string_utf8 value buf bufsize &result]: the status, the
    buffer and the number of bytes copied. A string that needs more than
    [bufsize - 1] bytes is truncated, not refused. *)
Definition napi_get_value_string_utf8 (value : napi_value) (bufsize : Z)
    : napi_status * list Z * Z :=
  match value with
  | JsString s =>
      let buf := WriteUtf8 (bufsize - 1) s in
      (napi_ok, buf, Z.of_nat (List.length buf))
  | _ => (napi_string_expected, [], 0)
  end.

Definition wrap_int32 (n : Z) : Z := (n + 2 ^ 31) mod 2 ^ 32 - 2 ^ 31.

(** ECMAScript's ToInt32: truncate toward zero, keep the low 32 bits. *)
Definition ToInt32 (d : js_number) : Z :=
  match d with
  | Finite m e =>
      wrap_int32 (if 0 <=? e then m * 2 ^ e else Z.quot m (2 ^ (- e)))
  | NaN | Infinity _ => 0
  end.

Definition napi_get_value_int32 (value : napi_value) : napi_status * Z :=
  match value with
  | JsNumber d => (napi_ok, ToInt32 d)
  | _ => (napi_number_expected, 0)
  end.

(** ** The C library: byte order and [inet_pton] *)

Definition bswap_16 (x : Z) : Z := (x mod 256) * 256 + x / 256.

(** [htons] takes a [uint16_t]: an [int32_t] argument is first reduced
    modulo 65536. *)
Definition htons (little_endian : bool) (hostshort : Z) : Z :=
  let x := hostshort mod 65536 in
  if little_endian then bswap_16 x else x.

Definition ntohs (little_endian : bool) (netshort : Z) : Z :=
  let x := netshort mod 65536 in
  if little_endian then bswap_16 x else x.

(** The loop of the C library's IPv4 parser over the characters of [src]:
    [prev] are the octets already closed by a dot, [cur] the octet being
    read. *)
Fixpoint inet_pton4_loop (src : list Z) (saw_digit : bool) (octets : Z)
    (prev : list Z) (cur : Z) : option (list Z) :=
  match src with
  | [] => if octets <? 4 then None else Some (prev ++ [cur])
  | ch :: src' =>
      if (48 <=? ch) && (ch <=? 57) then
        let new := cur * 10 + (ch - 48) in
        if saw_digit && (cur =? 0) then None
        else if 255 <? new then None
        else if saw_digit then inet_pton4_loop src' true octets prev new
        else if 4 <? octets + 1 then None
        else inet_pton4_loop src' true (octets + 1) prev new
      else if (ch =? 46) && saw_digit then
        if octets =? 4 then None
        else inet_pton4_loop src' false octets (prev ++ [cur]) 0
      else None
  end.

(** The four octets of a dotted-decimal literal, in network order. *)
Definition inet_pton4 (src : list Z) : option (list Z) :=
  inet_pton4_loop src false 0 [] 0.

Record sockaddr_in : Type := SockaddrIn {
  sin_family : Z;
  sin_port : Z;
  sin_addr : list Z
}.

Definition sockaddr_zero : sockaddr_in :=
  {| sin_family := 0; sin_port := 0; sin_addr := [0; 0; 0; 0] |}.

(** ** The world *)

Inductive sockopt : Type :=
| SO_BINDTODEVICE (ifname : list Z)
| TCP_NODELAY (on : Z).

Inductive call : Type :=
| Csocket (domain type protocol : Z)
| Csetsockopt (fd : Z) (opt : sockopt)
| Cinet_pton (af : Z) (src : list Z)
| Cconnect (fd : Z) (addr : sockaddr_in)
| Cclose (fd : Z).

Record event : Type := Event { ev_call : call; ev_ret : Z }.

Record world : Type := World {
  fds : gset Z;
  errno : Z;
  trace : list event;
  pending : option js_error
}.

(** What the kernel and the host answer during one invocation. A failing
    system call is given with the [errno] it sets. An answer may depend on
    what is asked (the interface name, the destination), not on the number
    of the descriptor. *)
Record environment : Type := Environment {
  little_endian : bool;
  cb_info_status : napi_status;
  create_int32_status : napi_status;
  socket_error : option Z;
  bindtodevice_error : list Z -> option Z;
  nodelay_error : option Z;
  connect_error : sockaddr_in -> option Z
}.

(** ** The monad *)

Definition M (A : Type) : Type := world -> A * world.

Definition ret {A : Type} (a : A) : M A := fun w => (a, w).

Definition bind {A B : Type} (m : M A) (k : A -> M B) : M B :=
  fun w => let (a, w') := m w in k a w'.

Notation "x <- m ;; k" := (bind m (fun x => k))
  (at level 100, m at next level, right associativity).
Notation "m ;; k" := (bind m (fun _ => k))
  (at level 100, right associativity).

Definition log (c : call) (r : Z) (w : world) : world :=
  {| fds := fds w; errno := errno w;
     trace := trace w ++ [Event c r]; pending := pending w |}.

Definition set_fds (X : gset Z) (w : world) : world :=
  {| fds := X; errno := errno w; trace := trace w; pending := pending w |}.

Definition set_errno (e : Z) (w : world) : world :=
  {| fds := fds w; errno := e; trace := trace w; pending := pending w |}.

(** A system call that fails returns -1 and sets [errno]. *)
Definition syscall_result (c : call) (failure : option Z) (ok : Z) : M Z :=
  fun w =>
    match failure with
    | Some e => (-1, log c (-1) (set_errno e w))
    | None => (ok, log c ok w)
    end.

(** ** The kernel *)

(** The kernel hands out the lowest descriptor that is not open. *)
Definition lowest_unused (X : gset Z) : Z :=
  match List.find (fun n => bool_decide (n ∉ X))
          (map Z.of_nat (seq 0 (S (size X)))) with
  | Some n => n
  | None => Z.of_nat (S (size X))
  end.

Definition socket (env : environment) (domain type protocol : Z) : M Z :=
  fun w =>
    match socket_error env with
    | Some e => syscall_result (Csocket domain type protocol) (Some e) 0 w
    | None =>
        let fd := lowest_unused (fds w) in
        syscall_result (Csocket domain type protocol) None fd
          (set_fds ({[fd]} ∪ fds w) w)
    end.

Definition setsockopt (env : environment) (s : Z) (opt : sockopt) : M Z :=
  syscall_result (Csetsockopt s opt)
    match opt with
    | SO_BINDTODEVICE ifname => bindtodevice_error env ifname
    | TCP_NODELAY _ => nodelay_error env
    end 0.

Definition connect (env : environment) (s : Z) (a : sockaddr_in) : M Z :=
  syscall_result (Cconnect s a) (connect_error env a) 0.

(** [close] releases the descriptor. *)
Definition close (s : Z) : M Z :=
  fun w => (0, log (Cclose s) 0 (set_fds (fds w ∖ {[s]}) w)).

(** [inet_pton (AF_INET, src, &a.sin_addr)]: 1 and the address stored, or
    0 and the structure untouched. *)
Definition inet_pton (af : Z) (src : list Z) (a : sockaddr_in)
    : M (Z * sockaddr_in) :=
  fun w =>
    match inet_pton4 (c_str src) with
    | Some octets =>
        ((1, {| sin_family := sin_family a; sin_port := sin_port a;
                sin_addr := octets |}),
         log (Cinet_pton af src) 1 w)
    | None => ((0, a), log (Cinet_pton af src) 0 w)
    end.

(** ** Node-API effects *)

(** [napi_throw_error env code msg] makes the error pending, unless an
    exception is pending already. *)
Definition napi_throw_error (code : option string) (msg : string)
    : M napi_status :=
  fun w =>
    match pending w with
    | Some _ => (napi_pending_exception, w)
    | None =>
        (napi_ok,
         {| fds := fds w; errno := errno w; trace := trace w;
            pending := Some (JsError code msg) |})
    end.

Definition napi_create_int32 (env : environment) (value : Z)
    : napi_status * napi_value :=
  (create_int32_status env, JsNumber (Finite value 0)).

(** ** The connector *)

Definition NULL : option napi_value := None.

Definition Connect (env : environment) (info : list napi_value)
    : M (option napi_value) :=
  let '(status, argc, args) := napi_get_cb_info (cb_info_status env) info 3 in
  if negb (is_napi_ok status) then
    napi_throw_error None "Failed to parse arguments" ;; ret NULL
  else if argc <? 3 then
    napi_throw_error None "Usage: connect(iface, ip, port)" ;; ret NULL
  else
  let '(status, iface, iface_len) :=
    napi_get_value_string_utf8 (nth 0 args JsUndefined) IFNAMSIZ in
  if negb (is_napi_ok status) then
    napi_throw_error None "Invalid iface argument" ;; ret NULL
  else
  let '(status, ip, ip_len) :=
    napi_get_value_string_utf8 (nth 1 args JsUndefined) INET_ADDRSTRLEN in
  if negb (is_napi_ok status) then
    napi_throw_error None "Invalid ip argument" ;; ret NULL
  else
  let '(status, port) := napi_get_value_int32 (nth 2 args JsUndefined) in
  if negb (is_napi_ok status) then
    napi_throw_error None "Invalid port argument" ;; ret NULL
  else
  s <- socket env AF_INET SOCK_STREAM 0 ;;
  if s <? 0 then
    napi_throw_error (Some "errno"%string) "socket() failed" ;; ret NULL
  else
  r <- setsockopt env s (SO_BINDTODEVICE (optval iface (strlen iface))) ;;
  if r <? 0 then
    close s ;;
    napi_throw_error (Some "errno"%string)
      "setsockopt(SO_BINDTODEVICE) failed" ;;
    ret NULL
  else
  let one := 1 in
  setsockopt env s (TCP_NODELAY one) ;;
  let a := sockaddr_zero in
  let a := {| sin_family := AF_INET; sin_port := sin_port a;
              sin_addr := sin_addr a |} in
  let a := {| sin_family := sin_family a;
              sin_port := htons (little_endian env) port;
              sin_addr := sin_addr a |} in
  parsed <- inet_pton AF_INET ip a ;;
  let '(r, a) := parsed in
  if negb (r =? 1) then
    close s ;;
    napi_throw_error None "inet_pton() failed: invalid IP address" ;;
    ret NULL
  else
  r <- connect env s a ;;
  if r <? 0 then
    close s ;;
    napi_throw_error (Some "errno"%string) "connect() failed" ;;
    ret NULL
  else
  let '(status, result) := napi_create_int32 env s in
  if negb (is_napi_ok status) then
    close s ;;
    napi_throw_error None "Failed to create return value" ;;
    ret NULL
  else
  ret (Some result).

(** ** Concrete inputs *)

(** The code points of an ASCII text. *)
Definition text (s : string) : list Z :=
  map (fun a => Z.of_N (Ascii.N_of_ascii a)) (list_ascii_of_string s).

Definition int (n : Z) : napi_value := JsNumber (Finite n 0).

(** Error numbers of Linux. *)
Definition ENODEV : Z := 19.
Definition ENOPROTOOPT : Z := 92.
Definition ECONNREFUSED : Z := 111.
Definition ETIMEDOUT : Z := 110.

(** A process with the three standard descriptors open. *)
Definition w0 : world :=
  {| fds := {[0; 1; 2]}; errno := 0; trace := []; pending := None |}.

(** The same process later: more descriptors open, an older [errno], a call
    already in the log. *)
Definition w1 : world :=
  {| fds := {[0; 1; 2; 3; 7]}; errno := ENODEV;
     trace := [Event (Cclose 5) 0]; pending := None |}.

(** A host where every call succeeds. *)
Definition env_ok : environment :=
  {| little_endian := true;
     cb_info_status := napi_ok;
     create_int32_status := napi_ok;
     socket_error := None;
     bindtodevice_error := fun _ => None;
     nodelay_error := None;
     connect_error := fun _ => None |}.

(** A host whose only interfaces are [lo] and [tun0]. *)
Definition env_lo_tun0 : environment :=
  {| little_endian := true;
     cb_info_status := napi_ok;
     create_int32_status := napi_ok;
     socket_error := None;
     bindtodevice_error := fun name =>
       if bool_decide (name = text "lo" \/ name = text "tun0")
       then None else Some ENODEV;
     nodelay_error := None;
     connect_error := fun _ => None |}.

(** A host where nothing listens: every connect is refused with [e]. *)
Definition env_refused (e : Z) : environment :=
  {| little_endian := true;
     cb_info_status := napi_ok;
     create_int32_status := napi_ok;
     socket_error := None;
     bindtodevice_error := fun _ => None;
     nodelay_error := None;
     connect_error := fun _ => Some e |}.

(** A process that has run out of descriptors. *)
Definition EMFILE : Z := 24.

Definition env_no_descriptors : environment :=
  {| little_endian := true;
     cb_info_status := napi_ok;
     create_int32_status := napi_ok;
     socket_error := Some EMFILE;
     bindtodevice_error := fun _ => None;
     nodelay_error := None;
     connect_error := fun _ => None |}.

(** A host that cannot create the number to return. *)
Definition env_no_return_value : environment :=
  {| little_endian := true;
     cb_info_status := napi_ok;
     create_int32_status := napi_generic_failure;
     socket_error := None;
     bindtodevice_error := fun _ => None;
     nodelay_error := None;
     connect_error := fun _ => None |}.

(** ** Outcomes *)

(** Modelled from the spec: the error taxonomy of section 7, which the
    source does not declare. Each kind is attached to the error the source
    throws at the place the spec describes; the errors of the argument
    glue, other than the one for the interface name, have no kind. *)
Inductive ConnectError : Type :=
| InvalidArgument
| InvalidAddress
| SocketCreateFailed
| InterfaceBindFailed
| ConnectFailed.

Definition error_kind (e : js_error) : option ConnectError :=
  let m := err_message e in
  if (m =? "Invalid iface argument")%string then Some InvalidArgument
  else if (m =? "inet_pton() failed: invalid IP address")%string
  then Some InvalidAddress
  else if (m =? "socket() failed")%string then Some SocketCreateFailed
  else if (m =? "setsockopt(SO_BINDTODEVICE) failed")%string
  then Some InterfaceBindFailed
  else if (m =? "connect() failed")%string then Some ConnectFailed
  else None.

Definition outcome : Type := option napi_value * world.

(** The call fails: it returns [NULL] with an exception pending. *)
Definition failed (r : outcome) : Prop :=
  fst r = NULL /\ pending (snd r) <> None.

Definition fails_with (k : ConnectError) (r : outcome) : Prop :=
  fst r = NULL /\
  exists e, pending (snd r) = Some e /\ error_kind e = Some k.

(** The events one invocation adds to the log. *)
Definition events (env : environment) (info : list napi_value) (w : world)
    : list event :=
  drop (List.length (trace w)) (trace (snd (Connect env info w))).

(** The descriptors made by the [socket] calls of a log, and the ones
    given to [close]. *)
Definition created (t : list event) : list Z :=
  flat_map (fun e =>
    match ev_call e with
    | Csocket _ _ _ => if ev_ret e <? 0 then [] else [ev_ret e]
    | _ => []
    end) t.

Definition closed (t : list event) : list Z :=
  flat_map (fun e =>
    match ev_call e with Cclose fd => [fd] | _ => [] end) t.

(** ** The exits of [Connect] *)

(** The interface name given to [SO_BINDTODEVICE], the [ip] buffer and the
    address given to [connect], as [Connect] computes them. *)
Definition ifname (i : list Z) : list Z := c_str (WriteUtf8 (IFNAMSIZ - 1) i).

Definition ip_buffer (a : list Z) : list Z := WriteUtf8 (INET_ADDRSTRLEN - 1) a.

Definition destination (env : environment) (d : js_number) (octets : list Z)
    : sockaddr_in :=
  {| sin_family := AF_INET;
     sin_port := htons (little_endian env) (ToInt32 d);
     sin_addr := octets |}.

(** The exception pending after [napi_throw_error]. A native function is
    entered with no exception pending; the error thrown is then the one
    pending when it returns. *)
Definition thrown (w : world) (code : option string) (msg : string)
    : option js_error :=
  match pending w with
  | Some e => Some e
  | None => Some (JsError code msg)
  end.

Definition ret_of (failure : option Z) : Z :=
  match failure with Some _ => -1 | None => 0 end.

Definition errno_of (failure : option Z) (old : Z) : Z :=
  match failure with Some e => e | None => old end.

Definition ev_socket (r : Z) : event := Event (Csocket AF_INET SOCK_STREAM 0) r.

Definition ev_bind (fd : Z) (i : list Z) (r : Z) : event :=
  Event (Csetsockopt fd (SO_BINDTODEVICE (ifname i))) r.

Definition ev_nodelay (env : environment) (fd : Z) : event :=
  Event (Csetsockopt fd (TCP_NODELAY 1)) (ret_of (nodelay_error env)).

Definition ev_pton (a : list Z) (r : Z) : event :=
  Event (Cinet_pton AF_INET (ip_buffer a)) r.

Definition ev_connect (fd : Z) (dst : sockaddr_in) (r : Z) : event :=
  Event (Cconnect fd dst) r.

Definition ev_close (fd : Z) : event := Event (Cclose fd) 0.

(** One constructor for each [return] of the source function, in the order
    of the source: the conditions under which it is reached and the
    outcome. *)
Inductive run (env : environment) (info : list napi_value) (w : world)
    : outcome -> Prop :=
| exit_parse_arguments :
    is_napi_ok (cb_info_status env) = false ->
    run env info w
      (NULL, {| fds := fds w; errno := errno w; trace := trace w;
                pending := thrown w None "Failed to parse arguments" |})
| exit_usage :
    is_napi_ok (cb_info_status env) = true ->
    (List.length info < 3)%nat ->
    run env info w
      (NULL, {| fds := fds w; errno := errno w; trace := trace w;
                pending := thrown w None "Usage: connect(iface, ip, port)" |})
| exit_iface a0 a1 a2 rest :
    is_napi_ok (cb_info_status env) = true ->
    info = a0 :: a1 :: a2 :: rest ->
    (forall i, a0 <> JsString i) ->
    run env info w
      (NULL, {| fds := fds w; errno := errno w; trace := trace w;
                pending := thrown w None "Invalid iface argument" |})
| exit_ip i a1 a2 rest :
    is_napi_ok (cb_info_status env) = true ->
    info = JsString i :: a1 :: a2 :: rest ->
    (forall a, a1 <> JsString a) ->
    run env info w
      (NULL, {| fds := fds w; errno := errno w; trace := trace w;
                pending := thrown w None "Invalid ip argument" |})
| exit_port i a a2 rest :
    is_napi_ok (cb_info_status env) = true ->
    info = JsString i :: JsString a :: a2 :: rest ->
    (forall d, a2 <> JsNumber d) ->
    run env info w
      (NULL, {| fds := fds w; errno := errno w; trace := trace w;
                pending := thrown w None "Invalid port argument" |})
| exit_socket i a d rest e :
    is_napi_ok (cb_info_status env) = true ->
    info = JsString i :: JsString a :: JsNumber d :: rest ->
    socket_error env = Some e ->
    run env info w
      (NULL, {| fds := fds w; errno := e;
                trace := trace w ++ [ev_socket (-1)];
                pending := thrown w (Some "errno"%string) "socket() failed" |})
| exit_bindtodevice i a d rest e :
    let fd := lowest_unused (fds w) in
    is_napi_ok (cb_info_status env) = true ->
    info = JsString i :: JsString a :: JsNumber d :: rest ->
    socket_error env = None ->
    bindtodevice_error env (ifname i) = Some e ->
    run env info w
      (NULL, {| fds := ({[fd]} ∪ fds w) ∖ {[fd]}; errno := e;
                trace := trace w ++
                  [ev_socket fd; ev_bind fd i (-1); ev_close fd];
                pending := thrown w (Some "errno"%string)
                             "setsockopt(SO_BINDTODEVICE) failed" |})
| exit_inet_pton i a d rest :
    let fd := lowest_unused (fds w) in
    is_napi_ok (cb_info_status env) = true ->
    info = JsString i :: JsString a :: JsNumber d :: rest ->
    socket_error env = None ->
    bindtodevice_error env (ifname i) = None ->
    inet_pton4 (c_str (ip_buffer a)) = None ->
    run env info w
      (NULL, {| fds := ({[fd]} ∪ fds w) ∖ {[fd]};
                errno := errno_of (nodelay_error env) (errno w);
                trace := trace w ++
                  [ev_socket fd; ev_bind fd i 0; ev_nodelay env fd;
                   ev_pton a 0; ev_close fd];
                pending := thrown w None
                             "inet_pton() failed: invalid IP address" |})
| exit_connect i a d rest octets e :
    let fd := lowest_unused (fds w) in
    let dst := destination env d octets in
    is_napi_ok (cb_info_status env) = true ->
    info = JsString i :: JsString a :: JsNumber d :: rest ->
    socket_error env = None ->
    bindtodevice_error env (ifname i) = None ->
    inet_pton4 (c_str (ip_buffer a)) = Some octets ->
    connect_error env dst = Some e ->
    run env info w
      (NULL, {| fds := ({[fd]} ∪ fds w) ∖ {[fd]}; errno := e;
                trace := trace w ++
                  [ev_socket fd; ev_bind fd i 0; ev_nodelay env fd;
                   ev_pton a 1; ev_connect fd dst (-1); ev_close fd];
                pending := thrown w (Some "errno"%string)
                             "connect() failed" |})
| exit_create_int32 i a d rest octets :
    let fd := lowest_unused (fds w) in
    let dst := destination env d octets in
    is_napi_ok (cb_info_status env) = true ->
    info = JsString i :: JsString a :: JsNumber d :: rest ->
    socket_error env = None ->
    bindtodevice_error env (ifname i) = None ->
    inet_pton4 (c_str (ip_buffer a)) = Some octets ->
    connect_error env dst = None ->
    is_napi_ok (create_int32_status env) = false ->
    run env info w
      (NULL, {| fds := ({[fd]} ∪ fds w) ∖ {[fd]};
                errno := errno_of (nodelay_error env) (errno w);
                trace := trace w ++
                  [ev_socket fd; ev_bind fd i 0; ev_nodelay env fd;
                   ev_pton a 1; ev_connect fd dst 0; ev_close fd];
                pending := thrown w None "Failed to create return value" |})
| exit_result i a d rest octets :
    let fd := lowest_unused (fds w) in
    let dst := destination env d octets in
    is_napi_ok (cb_info_status env) = true ->
    info = JsString i :: JsString a :: JsNumber d :: rest ->
    socket_error env = None ->
    bindtodevice_error env (ifname i) = None ->
    inet_pton4 (c_str (ip_buffer a)) = Some octets ->
    connect_error env dst = None ->
    is_napi_ok (create_int32_status env) = true ->
    run env info w
      (Some (JsNumber (Finite fd 0)),
       {| fds := {[fd]} ∪ fds w;
          errno := errno_of (nodelay_error env) (errno w);
          trace := trace w ++
            [ev_socket fd; ev_bind fd i 0; ev_nodelay env fd;
             ev_pton a 1; ev_connect fd dst 0];
          pending := pending w |}).

(** ** The steps of the algorithm *)

Inductive step : Type :=
| CreateSocket
| BindInterface
| TuneNoDelay
| ParseAddress
| TcpConnect.

(** The step a call belongs to; [close] is the unwinding, not a step. *)
Definition step_of (e : event) : option step :=
  match ev_call e with
  | Csocket _ _ _ => Some CreateSocket
  | Csetsockopt _ (SO_BINDTODEVICE _) => Some BindInterface
  | Csetsockopt _ (TCP_NODELAY _) => Some TuneNoDelay
  | Cinet_pton _ _ => Some ParseAddress
  | Cconnect _ _ => Some TcpConnect
  | Cclose _ => None
  end.

Definition steps (t : list event) : list step := omap step_of t.

Definition sequence : list step :=
  [CreateSocket; BindInterface; TuneNoDelay; ParseAddress; TcpConnect].

(** A mandatory step that reports a failure, as the source tests it. *)
Definition step_failed (e : event) : bool :=
  match ev_call e with
  | Csocket _ _ _ => ev_ret e <? 0
  | Csetsockopt _ (SO_BINDTODEVICE _) => ev_ret e <? 0
  | Csetsockopt _ (TCP_NODELAY _) => false
  | Cinet_pton _ _ => negb (ev_ret e =? 1)
  | Cconnect _ _ => ev_ret e <? 0
  | Cclose _ => false
  end.

(** No step follows a mandatory step that failed. *)
Fixpoint short_circuits (t : list event) : bool :=
  match t with
  | [] => true
  | e :: t' =>
      if step_failed e then bool_decide (steps t' = [])
      else short_circuits t'
  end.

(** The same host, with another answer to [TCP_NODELAY]. *)
Definition with_nodelay (r : option Z) (env : environment) : environment :=
  {| little_endian := little_endian env;
     cb_info_status := cb_info_status env;
     create_int32_status := create_int32_status env;
     socket_error := socket_error env;
     bindtodevice_error := bindtodevice_error env;
     nodelay_error := r;
     connect_error := connect_error env |}.

(** The characters of a dotted-decimal literal. *)
Definition dot_or_digit (b : Z) : Prop := b = 46 \/ 48 <= b <= 57.

(** An octet of an address. *)
Definition octet (b : Z) : Prop := 0 <= b <= 255.

(** * Properties *)

(** ** The kernel's descriptor allocation *)

Lemma lowest_unused_fresh (X : gset Z) : lowest_unused X ∉ X.
Proof.
  unfold lowest_unused.
  destruct (find _ _) as [n|] eqn:E.
  - apply find_some in E as [_ E]. by apply bool_decide_eq_true in E.
  - exfalso.
    assert (H : list_to_set (map Z.of_nat (seq 0 (S (size X)))) ⊆ X).
    { intros x Hx. apply elem_of_list_to_set in Hx.
      apply list_elem_of_In in Hx.
      pose proof (find_none _ _ E x Hx) as Hn. simpl in Hn.
      apply bool_decide_eq_false in Hn. by apply dec_stable. }
    apply subseteq_size in H.
    rewrite size_list_to_set in H.
    + rewrite length_map, length_seq in H. lia.
    + apply (NoDup_fmap_2 Z.of_nat). apply NoDup_ListNoDup, seq_NoDup.
Qed.

Lemma lowest_unused_nonneg (X : gset Z) : 0 <= lowest_unused X.
Proof.
  unfold lowest_unused.
  destruct (find _ _) as [n|] eqn:E; [|lia].
  apply find_some in E as [E _]. apply in_map_iff in E as (k & <- & _). lia.
Qed.

Lemma close_after_socket (X : gset Z) :
  ({[lowest_unused X]} ∪ X) ∖ {[lowest_unused X]} = X.
Proof.
  pose proof (lowest_unused_fresh X) as Hfresh.
  apply set_eq. intros x.
  rewrite elem_of_difference, elem_of_union, elem_of_singleton.
  split; [tauto|]. intros Hx. split; [tauto|]. by intros ->.
Qed.

Lemma lowest_unused_ltb (X : gset Z) : (lowest_unused X <? 0) = false.
Proof. apply Z.ltb_ge, lowest_unused_nonneg. Qed.

(** ** C strings *)

Lemma optval_strlen (buf : list Z) : optval buf (strlen buf) = c_str buf.
Proof.
  unfold optval, strlen. rewrite Nat2Z.id.
  induction buf as [|b buf IH]; simpl; [done|].
  destruct (b =? 0); simpl; [done|]. by rewrite IH.
Qed.

(** ** Every invocation leaves through one of the exits *)

Lemma argc_ge_3 {A : Type} (a0 a1 a2 : A) (rest : list A) :
  (Z.of_nat (List.length (a0 :: a1 :: a2 :: rest)) <? 3) = false.
Proof. apply Z.ltb_ge. simpl List.length. lia. Qed.

Lemma run_eq env info w out out' :
  run env info w out -> out = out' -> run env info w out'.
Proof. by intros H <-. Qed.

Arguments lowest_unused : simpl never.
Arguments htons : simpl never.
Arguments ToInt32 : simpl never.
Arguments inet_pton4 : simpl never.
Arguments optval : simpl never.
Arguments strlen : simpl never.

Ltac unfold_connect :=
  unfold Connect, napi_get_cb_info, napi_get_value_string_utf8,
    napi_get_value_int32, napi_create_int32, socket, setsockopt, connect,
    close, inet_pton, napi_throw_error, syscall_result, bind, ret.

Ltac unfold_exit :=
  unfold thrown, log, set_fds, set_errno, ev_socket, ev_bind, ev_nodelay,
    ev_pton, ev_connect, ev_close, destination, ret_of, errno_of, ifname,
    ip_buffer, sockaddr_zero, IFNAMSIZ, INET_ADDRSTRLEN in *.

(** Run the function under the conditions in the context. *)
Ltac exec :=
  match goal with p : option js_error |- _ => destruct p end;
  unfold_connect; unfold_exit;
  rewrite ?argc_ge_3;
  repeat (progress cbn in * ||
          match goal with
          | H : ?l = _ |- context [?l] => rewrite H
          end || rewrite lowest_unused_ltb || rewrite optval_strlen);
  rewrite <- ?app_assoc; try reflexivity.

Lemma Connect_run env info w : run env info w (Connect env info w).
Proof.
  destruct w as [X en t p].
  destruct (is_napi_ok (cb_info_status env)) eqn:Hcb.
  2: { eapply run_eq; [by apply exit_parse_arguments|]. exec. }
  destruct info as [|a0 [|a1 [|a2 rest]]].
  1-3: eapply run_eq; [apply exit_usage; [done|simpl; lia]|]; exec.
  destruct a0 as [| | |i|].
  1-3,5: eapply run_eq; [by eapply exit_iface|]; exec.
  destruct a1 as [| | |a|].
  1-3,5: eapply run_eq; [by eapply exit_ip|]; exec.
  destruct a2 as [| |d| |].
  1-2,4-5: eapply run_eq; [by eapply exit_port|]; exec.
  destruct (socket_error env) as [e|] eqn:Hsock.
  { eapply run_eq; [by eapply exit_socket|]. exec. }
  destruct (bindtodevice_error env (ifname i)) as [e|] eqn:Hbind.
  { eapply run_eq; [by eapply exit_bindtodevice|]. exec. }
  destruct (inet_pton4 (c_str (ip_buffer a))) as [octets|] eqn:Hpton.
  all: destruct (nodelay_error env) as [e|] eqn:Hnodelay.
  3-4: eapply run_eq; [by eapply exit_inet_pton|]; exec.
  all: destruct (connect_error env (destination env d octets)) as [e'|]
         eqn:Hconn.
  1,3: eapply run_eq; [by eapply exit_connect|]; exec.
  all: destruct (is_napi_ok (create_int32_status env)) eqn:Hcreate.
  2,4: eapply run_eq; [by eapply exit_create_int32|]; exec.
  all: eapply run_eq; [by eapply exit_result|]; exec.
Qed.

(** ** The scenarios of the specification *)

Example scenario_A :
  fst (Connect env_lo_tun0
         [JsString (text "lo"); JsString (text "127.0.0.1"); int 8080] w0)
  = Some (int 3).
Proof. vm_compute. reflexivity. Qed.

Example scenario_B :
  pending (snd (Connect env_lo_tun0
    [JsString (text "doesnotexist0"); JsString (text "127.0.0.1"); int 80]
    w0))
  = Some (JsError (Some "errno"%string) "setsockopt(SO_BINDTODEVICE) failed").
Proof. vm_compute. reflexivity. Qed.

Example scenario_C :
  pending (snd (Connect env_lo_tun0
    [JsString (text "tun0"); JsString (text "999.999.999.999"); int 80] w0))
  = Some (JsError None "inet_pton() failed: invalid IP address").
Proof. vm_compute. reflexivity. Qed.

Example scenario_D :
  pending (snd (Connect (env_refused ECONNREFUSED)
    [JsString (text "lo"); JsString (text "127.0.0.1"); int 9] w0))
  = Some (JsError (Some "errno"%string) "connect() failed").
Proof. vm_compute. reflexivity. Qed.

Example inet_pton4_literals :
  inet_pton4 (text "10.2.0.1") = Some [10; 2; 0; 1] /\
  inet_pton4 (text "0.0.0.0") = Some [0; 0; 0; 0] /\
  inet_pton4 (text "01.2.3.4") = None /\
  inet_pton4 (text "1.2.3") = None /\
  inet_pton4 (text "1.2.3.4.") = None /\
  inet_pton4 (text "1.2.3.256") = None.
Proof. vm_compute. repeat split. Qed.

Example negative_port : ntohs true (htons true (-1)) = 65535.
Proof. reflexivity. Qed.

Example fractional_port : ToInt32 (Finite 3 (-1)) = 1.
Proof. reflexivity. Qed.

(** ** Reading an outcome off the exit *)

Lemma thrown_fresh w code msg :
  pending w = None -> thrown w code msg = Some (JsError code msg).
Proof. unfold thrown. by intros ->. Qed.

Lemma lowest_unused_ret (X : gset Z) :
  (if lowest_unused X <? 0 then [] else [lowest_unused X])
  = [lowest_unused X].
Proof. by rewrite lowest_unused_ltb. Qed.

Lemma size_after_socket (X : gset Z) :
  size ({[lowest_unused X]} ∪ X) = S (size X).
Proof.
  rewrite size_union, size_singleton; [done|].
  pose proof (lowest_unused_fresh X) as Hfresh.
  intros x Hx%elem_of_singleton. by subst x.
Qed.

(** Case analysis on the exit taken by [Connect env info w]. *)
Ltac by_exit env info w :=
  unfold events;
  generalize (Connect_run env info w);
  generalize (Connect env info w);
  let out := fresh "out" in
  let Hrun := fresh "Hrun" in
  intros out Hrun; destruct Hrun;
  repeat match goal with x := _ |- _ => subst x end;
  cbn [fst snd fds errno trace pending];
  rewrite ?drop_app_length, ?drop_all, ?close_after_socket.

(** ** Descriptors *)

(** C1. Resource unwinding. When the call returns a failure ([NULL]) the
    descriptor table is the one the call started with (so the number of
    open descriptors is unchanged) and every descriptor made by [socket]
    during the call was given to [close]. When it returns a value, exactly
    one descriptor was made, none was closed, it is open in the table and
    it is the value returned. *)
Theorem connect_unwinds_descriptors env info w :
  let out := Connect env info w in
  let t := events env info w in
  match fst out with
  | None =>
      fds (snd out) = fds w /\ size (fds (snd out)) = size (fds w) /\
      closed t = created t
  | Some v =>
      exists fd, created t = [fd] /\ closed t = [] /\
        v = JsNumber (Finite fd 0) /\ (fd ∉ fds w) /\
        fds (snd out) = {[fd]} ∪ fds w /\
        size (fds (snd out)) = S (size (fds w))
  end.
Proof.
  cbv zeta. by_exit env info w; cbn; rewrite ?lowest_unused_ret; try done.
  exists (lowest_unused (fds w)).
  repeat split; auto using lowest_unused_fresh, size_after_socket.
Qed.

(** Discharge an exit whose conditions contradict the context. *)
Ltac wrong_exit :=
  solve [ exfalso; simplify_eq/=;
          first [ congruence | lia
                | match goal with
                  | H : forall x, _ <> _ |- _ => by eapply H
                  end ] ].

Ltac fails_here :=
  split; [reflexivity|];
  eexists; split; [by apply thrown_fresh | reflexivity].

(** ** Failures of the mandatory steps *)

(** C3. Interface-bind failure. A call entered with no exception pending:
    when the arguments are read, [socket] succeeds and the kernel rejects
    [SO_BINDTODEVICE] for the interface name, the call fails with
    [InterfaceBindFailed]; its calls are [socket], the rejected
    [setsockopt] and [close] of the descriptor, and the descriptor table
    is back to what it was. *)
Theorem interface_bind_failure env i a d rest w e :
  pending w = None ->
  is_napi_ok (cb_info_status env) = true ->
  socket_error env = None ->
  bindtodevice_error env (ifname i) = Some e ->
  let info := JsString i :: JsString a :: JsNumber d :: rest in
  let out := Connect env info w in
  let fd := lowest_unused (fds w) in
  fails_with InterfaceBindFailed out /\
  events env info w = [ev_socket fd; ev_bind fd i (-1); ev_close fd] /\
  fds (snd out) = fds w.
Proof.
  intros Hp Hcb Hsock Hbind info. cbv zeta. subst info.
  by_exit env (JsString i :: JsString a :: JsNumber d :: rest) w;
    try wrong_exit.
  simplify_eq. split; [fails_here|done].
Qed.

(** Scenario B: the interface [doesnotexist0] on a host with [lo] and
    [tun0]. *)
Lemma interface_bind_failure_witness :
  fails_with InterfaceBindFailed
    (Connect env_lo_tun0
       [JsString (text "doesnotexist0"); JsString (text "127.0.0.1"); int 80]
       w0).
Proof.
  apply (interface_bind_failure env_lo_tun0 (text "doesnotexist0")
           (text "127.0.0.1") (Finite 80 0) [] w0 ENODEV);
    vm_compute; reflexivity.
Defined.

(** C4, as amended. Address-parse failure. When the arguments are read,
    [socket] and the interface binding succeed, and the address as it
    reaches the parser (the whole characters that fit in the 15 bytes of
    the [ip] buffer, read up to the first NUL) is not an IPv4
    dotted-decimal literal, the call fails with [InvalidAddress]; a socket
    was created and bound before the parse, and it is closed. *)
Theorem address_parse_failure env i a d rest w :
  pending w = None ->
  is_napi_ok (cb_info_status env) = true ->
  socket_error env = None ->
  bindtodevice_error env (ifname i) = None ->
  inet_pton4 (c_str (ip_buffer a)) = None ->
  let info := JsString i :: JsString a :: JsNumber d :: rest in
  let out := Connect env info w in
  let fd := lowest_unused (fds w) in
  fails_with InvalidAddress out /\
  events env info w =
    [ev_socket fd; ev_bind fd i 0; ev_nodelay env fd; ev_pton a 0;
     ev_close fd] /\
  fds (snd out) = fds w.
Proof.
  intros Hp Hcb Hsock Hbind Hpton info. cbv zeta. subst info.
  by_exit env (JsString i :: JsString a :: JsNumber d :: rest) w;
    try wrong_exit.
  simplify_eq. split; [fails_here|done].
Qed.

(** Property P4: the address [not-an-ip]. *)
Lemma address_parse_failure_witness :
  fails_with InvalidAddress
    (Connect env_lo_tun0
       [JsString (text "tun0"); JsString (text "not-an-ip"); int 80] w0).
Proof.
  apply (address_parse_failure env_lo_tun0 (text "tun0") (text "not-an-ip")
           (Finite 80 0) [] w0);
    vm_compute; reflexivity.
Defined.

(** [192.168.100.1001] is not an IPv4 literal, yet the call returns a
    descriptor: the parser was given [192.168.100.100]. *)
Lemma overlong_address_is_parsed :
  let a := text "192.168.100.1001" in
  let info := [JsString (text "tun0"); JsString a; int 80] in
  let out := Connect env_ok info w0 in
  inet_pton4 (utf8 a) = None /\
  fst out = Some (int 3) /\
  pending (snd out) = None /\
  ~ fails_with InvalidAddress out /\
  In (ev_pton (text "192.168.100.100") 1) (events env_ok info w0).
Proof.
  cbv zeta. repeat split; try (vm_compute; reflexivity).
  - intros [Hnull _]. vm_compute in Hnull. discriminate.
  - vm_compute. tauto.
Qed.

(** C5, as amended. Connect failure. When the arguments are read and
    [socket], the interface binding and the parse succeed but [connect]
    fails, the call fails with [ConnectFailed] and the socket is closed.
    The error thrown has the fixed code ["errno"] and the fixed message
    ["connect() failed"]; the number the kernel gave is left in the C
    variable [errno] and is not part of the error. *)
Theorem connect_failure env i a d rest w octets e :
  pending w = None ->
  is_napi_ok (cb_info_status env) = true ->
  socket_error env = None ->
  bindtodevice_error env (ifname i) = None ->
  inet_pton4 (c_str (ip_buffer a)) = Some octets ->
  connect_error env (destination env d octets) = Some e ->
  let info := JsString i :: JsString a :: JsNumber d :: rest in
  let out := Connect env info w in
  let fd := lowest_unused (fds w) in
  fails_with ConnectFailed out /\
  pending (snd out) =
    Some (JsError (Some "errno"%string) "connect() failed") /\
  errno (snd out) = e /\
  events env info w =
    [ev_socket fd; ev_bind fd i 0; ev_nodelay env fd; ev_pton a 1;
     ev_connect fd (destination env d octets) (-1); ev_close fd] /\
  fds (snd out) = fds w.
Proof.
  intros Hp Hcb Hsock Hbind Hpton Hconn info. cbv zeta. subst info.
  by_exit env (JsString i :: JsString a :: JsNumber d :: rest) w;
    try wrong_exit.
  simplify_eq. split; [fails_here|]. split; [by apply thrown_fresh|done].
Qed.

(** Scenario D: a port with no listener. *)
Lemma connect_failure_witness :
  fails_with ConnectFailed
    (Connect (env_refused ECONNREFUSED)
       [JsString (text "lo"); JsString (text "127.0.0.1"); int 9] w0).
Proof.
  apply (connect_failure (env_refused ECONNREFUSED) (text "lo")
           (text "127.0.0.1") (Finite 9 0) [] w0 [127; 0; 0; 1] ECONNREFUSED);
    vm_compute; reflexivity.
Defined.

(** A refused connect and a connect that timed out throw the same error:
    the error does not hold the kernel's code. *)
Lemma connect_errno_not_surfaced :
  let info := [JsString (text "lo"); JsString (text "127.0.0.1"); int 9] in
  let refused := Connect (env_refused ECONNREFUSED) info w0 in
  let timed_out := Connect (env_refused ETIMEDOUT) info w0 in
  errno (snd refused) = ECONNREFUSED /\
  errno (snd timed_out) = ETIMEDOUT /\
  ECONNREFUSED <> ETIMEDOUT /\
  pending (snd refused) =
    Some (JsError (Some "errno"%string) "connect() failed") /\
  pending (snd timed_out) = pending (snd refused).
Proof. cbv zeta. repeat split; vm_compute; congruence. Qed.

(** ** Truncation by the fixed-size buffers *)

Lemma utf8_encode_length c : (1 <= List.length (utf8_encode c))%nat.
Proof.
  unfold utf8_encode.
  repeat match goal with |- context [if ?b then _ else _] => destruct b end;
    simpl; lia.
Qed.

(** A buffer of [cap] bytes holds at most the first [cap] characters. *)
Lemma WriteUtf8_take cap n s :
  cap <= Z.of_nat n -> WriteUtf8 cap s = WriteUtf8 cap (take n s).
Proof.
  revert cap n. induction s as [|c s IH]; intros cap n Hcap.
  - by destruct n.
  - pose proof (utf8_encode_length c) as Hlen.
    destruct n as [|n]; simpl.
    + destruct (Z.leb_spec (Z.of_nat (List.length (utf8_encode c))) cap);
        [lia|done].
    + destruct (Z.leb_spec (Z.of_nat (List.length (utf8_encode c))) cap);
        [|done].
      f_equal. apply IH. lia.
Qed.

Lemma ip_buffer_take a : ip_buffer a = ip_buffer (take 15 a).
Proof. unfold ip_buffer. by apply WriteUtf8_take. Qed.

(** The device name is read from the first 15 characters of the argument. *)
Lemma ifname_take i : ifname i = ifname (take 15 i).
Proof. unfold ifname. f_equal. by apply WriteUtf8_take. Qed.

Lemma Connect_ip_buffer env a0 a a' a2 rest :
  ip_buffer a = ip_buffer a' ->
  Connect env (a0 :: JsString a :: a2 :: rest)
  = Connect env (a0 :: JsString a' :: a2 :: rest).
Proof.
  unfold ip_buffer. intros Hbuf.
  unfold Connect, napi_get_cb_info.
  cbn [firstn app nth napi_get_value_string_utf8].
  rewrite !argc_ge_3.
  by rewrite Hbuf.
Qed.

Lemma Connect_ifname env i i' a1 a2 rest :
  WriteUtf8 (IFNAMSIZ - 1) i = WriteUtf8 (IFNAMSIZ - 1) i' ->
  Connect env (JsString i :: a1 :: a2 :: rest)
  = Connect env (JsString i' :: a1 :: a2 :: rest).
Proof.
  intros Hbuf.
  unfold Connect, napi_get_cb_info.
  cbn [firstn app nth napi_get_value_string_utf8].
  rewrite !argc_ge_3.
  by rewrite Hbuf.
Qed.

(** The parser accepts dots and digits only. *)
Lemma inet_pton4_loop_chars src saw octets prev cur o :
  inet_pton4_loop src saw octets prev cur = Some o ->
  Forall dot_or_digit src.
Proof.
  revert saw octets prev cur.
  induction src as [|ch src IH]; intros saw octets prev cur H; [constructor|].
  cbn [inet_pton4_loop] in H.
  destruct ((48 <=? ch) && (ch <=? 57)) eqn:Hdigit.
  - apply andb_true_iff in Hdigit. constructor; [right; lia|].
    repeat case_match; try discriminate; eauto.
  - destruct ((ch =? 46) && saw) eqn:Hdot; [|discriminate].
    apply andb_true_iff in Hdot. constructor; [left; lia|].
    case_match; [discriminate|eauto].
Qed.

Lemma inet_pton4_chars src o :
  inet_pton4 src = Some o -> Forall dot_or_digit src.
Proof. apply inet_pton4_loop_chars. Qed.

(** A continuation byte has bit 7 set: it is neither a dot nor a digit. *)
Lemma lor_high_bit_not_ascii (x : Z) : ~ dot_or_digit (Z.lor 0x80 x).
Proof.
  intros H.
  assert (Hbit : Z.testbit (Z.lor 0x80 x) 7 = true)
    by (rewrite Z.lor_spec; reflexivity).
  set (y := Z.lor 0x80 x) in *.
  assert (Hy : y = 46 \/ y = 48 \/ y = 49 \/ y = 50 \/ y = 51 \/ y = 52 \/
               y = 53 \/ y = 54 \/ y = 55 \/ y = 56 \/ y = 57)
    by (unfold dot_or_digit in H; lia).
  clearbody y.
  repeat destruct Hy as [->|Hy]; try subst y; discriminate.
Qed.

(** A character whose bytes are dots and digits is a single byte. *)
Lemma utf8_encode_ascii c :
  Forall dot_or_digit (utf8_encode c) -> utf8_encode c = [c].
Proof.
  unfold utf8_encode.
  destruct (c <? 0x80); [done|].
  destruct (c <? 0x800).
  { intros H. apply Forall_cons in H as [_ H].
    apply Forall_cons in H as [H _]. by apply lor_high_bit_not_ascii in H. }
  destruct ((0xD800 <=? c) && (c <=? 0xDFFF)).
  { intros H. apply Forall_cons in H as [H _]. unfold dot_or_digit in H. lia. }
  destruct (c <? 0x10000).
  all: intros H; apply Forall_cons in H as [_ H];
    apply Forall_cons in H as [H _]; by apply lor_high_bit_not_ascii in H.
Qed.

Lemma utf8_ascii s :
  Forall dot_or_digit (utf8 s) -> utf8 s = s /\ Forall dot_or_digit s.
Proof.
  unfold utf8. induction s as [|c s IH]; simpl; [done|].
  intros H. apply Forall_app in H as [Hc Hs].
  pose proof (utf8_encode_ascii c Hc) as Hone.
  destruct (IH Hs) as [-> Hall]. rewrite Hone in Hc |- *.
  apply Forall_cons in Hc as [Hc _]. by split; [|constructor].
Qed.

Lemma dot_or_digit_encode c : dot_or_digit c -> utf8_encode c = [c].
Proof.
  intros H. unfold utf8_encode.
  destruct (Z.ltb_spec c 0x80); [done|]. unfold dot_or_digit in H. lia.
Qed.

Lemma WriteUtf8_ascii cap s :
  Forall dot_or_digit s -> Z.of_nat (List.length s) <= cap ->
  WriteUtf8 cap s = s.
Proof.
  intros Hall. revert cap. induction Hall as [|c s Hc Hs IH]; intros cap Hcap.
  - done.
  - cbn [WriteUtf8 List.length] in *. rewrite (dot_or_digit_encode c Hc).
    cbn [List.length app].
    destruct (Z.leb_spec (Z.of_nat 1) cap); [|lia]. f_equal. apply IH. lia.
Qed.

Lemma c_str_ascii s : Forall dot_or_digit s -> c_str s = s.
Proof.
  induction 1 as [|c s Hc Hs IH]; simpl; [done|].
  destruct (Z.eqb_spec c 0); [unfold dot_or_digit in Hc; lia|]. by rewrite IH.
Qed.

(** When the first 15 characters are an IPv4 literal, they are what the
    [ip] buffer holds and what the parser reads. *)
Lemma valid_prefix_reaches_parser a octets :
  inet_pton4 (utf8 (take 15 a)) = Some octets ->
  ip_buffer a = take 15 a /\ utf8 (take 15 a) = take 15 a /\
  inet_pton4 (c_str (ip_buffer a)) = Some octets.
Proof.
  intros Hvalid.
  destruct (utf8_ascii (take 15 a)) as [Heq Hall];
    [by eapply inet_pton4_chars|].
  assert (Hbuf : ip_buffer a = take 15 a).
  { rewrite ip_buffer_take. unfold ip_buffer.
    apply WriteUtf8_ascii; [done|]. rewrite length_take.
    change (INET_ADDRSTRLEN - 1) with (Z.of_nat 15).
    apply Nat2Z.inj_le, Nat.le_min_l. }
  split; [done|]. split; [done|].
  by rewrite Hbuf, c_str_ascii, <- Heq.
Qed.

(** ** The port *)

Lemma ToInt32_int p : - 2 ^ 31 <= p < 2 ^ 31 -> ToInt32 (Finite p 0) = p.
Proof.
  intros Hp. unfold ToInt32, wrap_int32.
  change (0 <=? 0) with true. cbv iota.
  change (2 ^ 0) with 1. change (2 ^ 31) with 2147483648 in *.
  change (2 ^ 32) with 4294967296.
  rewrite Z.mul_1_r, Z.mod_small; lia.
Qed.

Lemma bswap_16_involutive x : 0 <= x < 65536 -> bswap_16 (bswap_16 x) = x.
Proof. unfold bswap_16. intros Hx. Z.div_mod_to_equations. lia. Qed.

Lemma bswap_16_range x : 0 <= x < 65536 -> 0 <= bswap_16 x < 65536.
Proof. unfold bswap_16. intros Hx. Z.div_mod_to_equations. lia. Qed.

Lemma ntohs_htons le x : ntohs le (htons le x) = x mod 65536.
Proof.
  unfold ntohs, htons.
  assert (Hx : 0 <= x mod 65536 < 65536) by (apply Z.mod_pos_bound; lia).
  destruct le.
  - rewrite (Z.mod_small (bswap_16 _)) by by apply bswap_16_range.
    by apply bswap_16_involutive.
  - by rewrite Z.mod_mod.
Qed.

(** ** Claims about the arguments *)

(** Refute a failure of kind [k] at an exit that throws another error. *)
Ltac other_kind H :=
  let Hnull := fresh in
  let err := fresh in
  let Herr := fresh in
  let Hkind := fresh in
  destruct H as [Hnull (err & Herr & Hkind)]; cbn in Hnull, Herr;
  try discriminate;
  rewrite thrown_fresh in Herr by assumption;
  simplify_eq; vm_compute in Hkind; discriminate.

(** C2, as amended. Input validation precedes OS calls. A call that gets
    its three arguments fails with [InvalidArgument] exactly when the
    interface-name argument is not a string; it then makes no call to the
    kernel, so no socket is created and the descriptor table is unchanged.
    An interface name that exceeds the limit is not refused: the call
    behaves as it does on the first 15 characters of the name. *)
Theorem interface_argument_validation env a0 a1 a2 rest w :
  pending w = None ->
  is_napi_ok (cb_info_status env) = true ->
  let info := a0 :: a1 :: a2 :: rest in
  let out := Connect env info w in
  (fails_with InvalidArgument out <-> forall i, a0 <> JsString i) /\
  (fails_with InvalidArgument out ->
     events env info w = [] /\ fds (snd out) = fds w) /\
  (forall i, a0 = JsString i ->
     Connect env info w
     = Connect env (JsString (take 15 i) :: a1 :: a2 :: rest) w).
Proof.
  intros Hp Hcb info. cbv zeta. subst info.
  split; [split|split].
  - by_exit env (a0 :: a1 :: a2 :: rest) w; intros Hfail;
      try solve [other_kind Hfail].
    by simplify_eq.
  - intros Hnot.
    by_exit env (a0 :: a1 :: a2 :: rest) w; try wrong_exit.
    fails_here.
  - by_exit env (a0 :: a1 :: a2 :: rest) w; intros Hfail;
      try solve [other_kind Hfail]; done.
  - intros i ->. rewrite (Connect_ifname env i (take 15 i)); [done|].
    by apply WriteUtf8_take.
Qed.

(** A number where the interface name is expected. *)
Lemma interface_argument_validation_witness :
  fails_with InvalidArgument
    (Connect env_ok [int 0; JsString (text "10.2.0.1"); int 80] w0).
Proof.
  apply (interface_argument_validation env_ok (int 0)
           (JsString (text "10.2.0.1")) (int 80) [] w0);
    [reflexivity | reflexivity | intros i; discriminate].
Defined.

(** A name of 20 characters is not refused: the call returns a descriptor,
    bound to the device named by the first 15 characters. *)
Lemma overlong_interface_is_accepted :
  let i := text "tun0tun0tun0tun0tun0" in
  let info := [JsString i; JsString (text "10.2.0.1"); int 80] in
  let out := Connect env_ok info w0 in
  IFNAMSIZ - 1 < Z.of_nat (List.length (utf8 i)) /\
  fst out = Some (int 3) /\
  ~ fails_with InvalidArgument out /\
  created (events env_ok info w0) = [3] /\
  In (ev_bind 3 (text "tun0tun0tun0tun") 0) (events env_ok info w0).
Proof.
  cbv zeta. repeat split; try (vm_compute; reflexivity).
  - intros [Hnull _]. vm_compute in Hnull. discriminate.
  - vm_compute. tauto.
Qed.

(** C9. Implicit port wrap-around. For every signed 32-bit port argument,
    once the socket is created and bound and the address parsed, [connect]
    is issued, whatever the value of the port, and the port of its
    destination (the [sin_port] field read in host order) is the argument
    modulo 65536. *)
Theorem port_wraps_modulo_65536 env i a p rest w octets :
  - 2 ^ 31 <= p < 2 ^ 31 ->
  is_napi_ok (cb_info_status env) = true ->
  socket_error env = None ->
  bindtodevice_error env (ifname i) = None ->
  inet_pton4 (c_str (ip_buffer a)) = Some octets ->
  let info := JsString i :: JsString a :: int p :: rest in
  let fd := lowest_unused (fds w) in
  exists dst r,
    In (ev_connect fd dst r) (events env info w) /\
    sin_addr dst = octets /\
    ntohs (little_endian env) (sin_port dst) = p mod 65536.
Proof.
  intros Hp Hcb Hsock Hbind Hpton info. cbv zeta. subst info. unfold int.
  by_exit env (JsString i :: JsString a :: JsNumber (Finite p 0) :: rest) w;
    try wrong_exit.
  all: simplify_eq; eexists (destination env (Finite p 0) _), _.
  all: split; [simpl; eauto 10|]; split; [reflexivity|].
  all: unfold destination; cbn [sin_port];
    by rewrite ntohs_htons, ToInt32_int.
Qed.

(** Port 65536 targets port 0. *)
Lemma port_wraps_modulo_65536_witness :
  let info := [JsString (text "tun0"); JsString (text "10.2.0.1"); int 65536] in
  exists dst r,
    In (ev_connect 3 dst r) (events env_ok info w0) /\
    sin_addr dst = [10; 2; 0; 1] /\
    ntohs true (sin_port dst) = 0.
Proof.
  apply (port_wraps_modulo_65536 env_ok (text "tun0") (text "10.2.0.1")
           65536 [] w0 [10; 2; 0; 1]);
    [split|..]; vm_compute; congruence.
Defined.

(** C10. Implicit address truncation. A call whose address has more than
    15 characters has the outcome it has on the first 15 characters. When
    those are an IPv4 literal, the call does not fail with
    [InvalidAddress]: once the socket is created and bound, the parser is
    given exactly those 15 characters and accepts them, [connect] is
    issued to that address, and the call returns the descriptor when
    [connect] succeeds. *)
Theorem overlong_address_truncated env i a d rest w :
  (15 < List.length a)%nat ->
  let info := JsString i :: JsString a :: JsNumber d :: rest in
  let cut := JsString i :: JsString (take 15 a) :: JsNumber d :: rest in
  let out := Connect env info w in
  let fd := lowest_unused (fds w) in
  Connect env info w = Connect env cut w /\
  forall octets,
    inet_pton4 (utf8 (take 15 a)) = Some octets ->
    pending w = None ->
    is_napi_ok (cb_info_status env) = true ->
    socket_error env = None ->
    bindtodevice_error env (ifname i) = None ->
    let dst := destination env d octets in
    ~ fails_with InvalidAddress out /\
    In (Event (Cinet_pton AF_INET (take 15 a)) 1) (events env info w) /\
    In (ev_connect fd dst (ret_of (connect_error env dst)))
       (events env info w) /\
    (connect_error env dst = None ->
     is_napi_ok (create_int32_status env) = true ->
     fst out = Some (JsNumber (Finite fd 0))).
Proof.
  intros Hlong info cut. cbv zeta. subst info cut. split.
  { rewrite (Connect_ip_buffer env _ a (take 15 a)); [done|].
    apply ip_buffer_take. }
  intros octets Hvalid Hp Hcb Hsock Hbind.
  destruct (valid_prefix_reaches_parser a octets Hvalid)
    as (Hbuf & _ & Hpton).
  by_exit env (JsString i :: JsString a :: JsNumber d :: rest) w;
    try wrong_exit.
  all: simplify_eq; unfold ev_pton; rewrite Hbuf.
  all: split; [intros Hfail; other_kind Hfail|].
  all: split; [simpl; tauto|].
  all: match goal with
       | H : connect_error _ _ = _ |- _ => rewrite H
       end.
  all: split; [simpl; tauto|].
  all: intros; simplify_eq; try done; congruence.
Qed.

(** [192.168.100.1001] connects to [192.168.100.100]. *)
Lemma overlong_address_truncated_witness :
  fst (Connect env_ok
         [JsString (text "tun0"); JsString (text "192.168.100.1001"); int 80]
         w0)
  = Some (int 3).
Proof.
  apply (proj2 (overlong_address_truncated env_ok (text "tun0")
                  (text "192.168.100.1001") (Finite 80 0) [] w0
                  (Nat.lt_succ_diag_r 15))
           [192; 168; 100; 100]);
    vm_compute; reflexivity.
Defined.

(** ** Claims about two invocations *)

(** Case analysis on the exits of two invocations. *)
Ltac by_exits env1 info1 w1 env2 info2 w2 :=
  unfold events;
  generalize (Connect_run env1 info1 w1);
  generalize (Connect_run env2 info2 w2);
  generalize (Connect env1 info1 w1);
  generalize (Connect env2 info2 w2);
  let o1 := fresh "out" in
  let o2 := fresh "out" in
  let H1 := fresh "Hrun" in
  let H2 := fresh "Hrun" in
  intros o2 o1 H2 H1; destruct H1; destruct H2;
  repeat match goal with x := _ |- _ => subst x end;
  unfold with_nodelay, destination, ev_nodelay in *;
  cbn [fst snd fds errno trace pending little_endian cb_info_status
       create_int32_status socket_error bindtodevice_error nodelay_error
       connect_error] in *;
  try wrong_exit;
  rewrite ?drop_app_length, ?drop_all, ?close_after_socket.

(** Whatever the kernel answers to [TCP_NODELAY], the outcome is the
    same. *)
Lemma nodelay_same_outcome env r info w :
  let out := Connect env info w in
  let out' := Connect (with_nodelay r env) info w in
  fst out' = fst out /\
  pending (snd out') = pending (snd out) /\
  fds (snd out') = fds (snd out) /\
  map ev_call (events (with_nodelay r env) info w)
  = map ev_call (events env info w).
Proof.
  cbv zeta.
  by_exits env info w (with_nodelay r env) info w.
  all: simplify_eq; try done.
Qed.

(** Case analysis on the exit taken on a host with another answer to
    [TCP_NODELAY]. *)
Ltac by_exit_nodelay r env info w :=
  by_exit (with_nodelay r env) info w;
  unfold with_nodelay, destination, ev_nodelay in *;
  cbn [little_endian cb_info_status create_int32_status socket_error
       bindtodevice_error nodelay_error connect_error] in *.

(** In the log, the call after [TCP_NODELAY] is [inet_pton], and the one
    after a successful [inet_pton] is [connect]. *)
Lemma nodelay_followed_by_parse env r info w fd on ret before after :
  events (with_nodelay r env) info w
  = before ++ Event (Csetsockopt fd (TCP_NODELAY on)) ret :: after ->
  exists src parsed rest,
    after = Event (Cinet_pton AF_INET src) parsed :: rest /\
    (parsed = 1 ->
     exists dst result rest', rest = Event (Cconnect fd dst) result :: rest').
Proof.
  by_exit_nodelay r env info w; intros Hlog.
  all: unfold ev_socket, ev_bind, ev_pton, ev_connect, ev_close in Hlog.
  all: repeat (destruct before as [|? before];
               [cbn in Hlog; try discriminate
               |cbn in Hlog; injection Hlog as ? Hlog; try discriminate]).
  all: try (by destruct before).
  all: simplify_eq; eexists _, _, _; split; [reflexivity|].
  all: intros ?; try discriminate; by eexists _, _, _.
Qed.

(** Once the socket is bound, [TCP_NODELAY] is asked for and, whatever the
    answer, the address is parsed and [connect] is called. *)
Lemma nodelay_then_parse_and_connect env r i a d rest w :
  is_napi_ok (cb_info_status env) = true ->
  socket_error env = None ->
  bindtodevice_error env (ifname i) = None ->
  let info := JsString i :: JsString a :: JsNumber d :: rest in
  let env' := with_nodelay r env in
  let fd := lowest_unused (fds w) in
  let nodelay := Event (Csetsockopt fd (TCP_NODELAY 1)) (ret_of r) in
  (inet_pton4 (c_str (ip_buffer a)) = None ->
   events env' info w =
     [ev_socket fd; ev_bind fd i 0; nodelay; ev_pton a 0; ev_close fd]) /\
  (forall octets,
     inet_pton4 (c_str (ip_buffer a)) = Some octets ->
     let dst := destination env d octets in
     (exists t,
        events env' info w =
          ev_socket fd :: ev_bind fd i 0 :: nodelay :: ev_pton a 1 ::
          ev_connect fd dst (ret_of (connect_error env dst)) :: t) /\
     (connect_error env dst = None ->
      is_napi_ok (create_int32_status env) = true ->
      fst (Connect env' info w) = Some (JsNumber (Finite fd 0)))).
Proof.
  intros Hcb Hsock Hbind info env' fd nodelay.
  subst info env' fd nodelay. split.
  - intros Hpton.
    by_exit_nodelay r env (JsString i :: JsString a :: JsNumber d :: rest) w;
      try wrong_exit.
    by simplify_eq.
  - intros octets Hpton dst. subst dst. unfold destination.
    by_exit_nodelay r env (JsString i :: JsString a :: JsNumber d :: rest) w;
      try wrong_exit.
    all: simplify_eq.
    all: match goal with
         | H : connect_error _ _ = _ |- _ => rewrite H
         end.
    all: split; [by eexists|]; intros; simplify_eq; try done; congruence.
Qed.

(** C6. Best-effort no-delay tuning. Whatever the kernel answers to
    [TCP_NODELAY], the call returns the same value, leaves the same
    exception pending and the same descriptor table, and makes the same
    calls in the same order. In the log the call after [TCP_NODELAY] is
    always [inet_pton], followed by [connect] when the parse succeeds.
    Once the arguments are read and the socket is created and bound,
    [TCP_NODELAY] is asked for and, whatever the answer, the address is
    parsed and, when it parses, [connect] is called; the call then returns
    the descriptor when [connect] succeeds. *)
Theorem nodelay_is_best_effort env r info w :
  let out := Connect env info w in
  let out' := Connect (with_nodelay r env) info w in
  let log' := events (with_nodelay r env) info w in
  fst out' = fst out /\
  pending (snd out') = pending (snd out) /\
  fds (snd out') = fds (snd out) /\
  map ev_call log' = map ev_call (events env info w) /\
  (forall fd on ret before after,
     log' = before ++ Event (Csetsockopt fd (TCP_NODELAY on)) ret :: after ->
     exists src parsed rest,
       after = Event (Cinet_pton AF_INET src) parsed :: rest /\
       (parsed = 1 ->
        exists dst result rest',
          rest = Event (Cconnect fd dst) result :: rest')) /\
  (forall i a d rest,
     info = JsString i :: JsString a :: JsNumber d :: rest ->
     is_napi_ok (cb_info_status env) = true ->
     socket_error env = None ->
     bindtodevice_error env (ifname i) = None ->
     let fd := lowest_unused (fds w) in
     let nodelay := Event (Csetsockopt fd (TCP_NODELAY 1)) (ret_of r) in
     (inet_pton4 (c_str (ip_buffer a)) = None ->
      log' =
        [ev_socket fd; ev_bind fd i 0; nodelay; ev_pton a 0; ev_close fd]) /\
     (forall octets,
        inet_pton4 (c_str (ip_buffer a)) = Some octets ->
        let dst := destination env d octets in
        (exists t,
           log' =
             ev_socket fd :: ev_bind fd i 0 :: nodelay :: ev_pton a 1 ::
             ev_connect fd dst (ret_of (connect_error env dst)) :: t) /\
        (connect_error env dst = None ->
         is_napi_ok (create_int32_status env) = true ->
         fst out' = Some (JsNumber (Finite fd 0))))).
Proof.
  cbv zeta.
  destruct (nodelay_same_outcome env r info w) as (Hret & Hexc & Hfds & Hlog).
  do 4 (split; [done|]). split.
  - apply nodelay_followed_by_parse.
  - intros i a d rest -> Hcb Hsock Hbind.
    by apply (nodelay_then_parse_and_connect env r i a d rest w).
Qed.

(** A failed [TCP_NODELAY] on a host where the rest succeeds: the
    descriptor is returned. *)
Lemma nodelay_is_best_effort_witness :
  fst (Connect (with_nodelay (Some ENOPROTOOPT) env_ok)
         [JsString (text "tun0"); JsString (text "10.2.0.1"); int 80] w0)
  = Some (int 3).
Proof.
  destruct (nodelay_is_best_effort env_ok (Some ENOPROTOOPT)
              [JsString (text "tun0"); JsString (text "10.2.0.1"); int 80]
              w0)
    as (_ & _ & _ & _ & _ & Hreach).
  apply (proj2 (Hreach (text "tun0") (text "10.2.0.1") (Finite 80 0) []
                  eq_refl eq_refl eq_refl eq_refl) [10; 2; 0; 1]);
    reflexivity.
Defined.

(** Two invocations with the same arguments and the same answers fail
    together, with the same error. *)
Lemma same_arguments_same_error env info w1 w2 :
  pending w1 = None ->
  pending w2 = None ->
  let first := Connect env info w1 in
  let second := Connect env info w2 in
  (failed first <-> failed second) /\
  pending (snd second) = pending (snd first).
Proof.
  intros Hp1 Hp2. cbv zeta. unfold failed.
  by_exits env info w1 env info w2.
  all: simplify_eq; rewrite ?thrown_fresh by done; cbn [fst snd pending].
  all: try done.
  rewrite Hp1, Hp2. split; [|done]. by split; intros [? _].
Qed.

(** Arguments that cannot be read, or an address that does not parse as it
    reaches the parser, make the invocation fail on every host. *)
Lemma detected_invalid_arguments_fail env info w :
  pending w = None ->
  (forall i a d rest,
     info = JsString i :: JsString a :: JsNumber d :: rest ->
     inet_pton4 (c_str (ip_buffer a)) = None) ->
  failed (Connect env info w).
Proof.
  intros Hp Hinvalid. unfold failed.
  by_exit env info w; rewrite ?thrown_fresh by done; try done.
  all: first
         [ specialize (Hinvalid _ _ _ _ eq_refl)
         | match goal with
           | H : _ = JsString _ :: JsString _ :: JsNumber _ :: _ |- _ =>
               specialize (Hinvalid _ _ _ _ H)
           end ];
    congruence.
Qed.

(** C8, as amended. Idempotent error reporting. Two invocations with the
    same arguments and the same answers of the host, started in any two
    states of the process with no exception pending: one fails exactly
    when the other does, they leave the same error and so the same kind,
    and both fail when the arguments are invalid in a way the function
    detects: fewer than three, not a string, a string and a number, or an
    address that does not parse as it reaches the parser. *)
Theorem error_reporting_is_idempotent env info w1 w2 :
  pending w1 = None ->
  pending w2 = None ->
  let first := Connect env info w1 in
  let second := Connect env info w2 in
  (failed first <-> failed second) /\
  pending (snd second) = pending (snd first) /\
  (error_kind <$> pending (snd second))
  = (error_kind <$> pending (snd first)) /\
  ((forall i a d rest,
      info = JsString i :: JsString a :: JsNumber d :: rest ->
      inet_pton4 (c_str (ip_buffer a)) = None) ->
   failed first /\ failed second).
Proof.
  intros Hp1 Hp2. cbv zeta.
  destruct (same_arguments_same_error env info w1 w2 Hp1 Hp2) as [Hiff Herr].
  split; [done|]. split; [done|]. split; [by rewrite Herr|].
  intros Hinvalid. split; by apply detected_invalid_arguments_fail.
Qed.

(** The address [not-an-ip], twice. *)
Lemma error_reporting_is_idempotent_witness :
  let info :=
    [JsString (text "tun0"); JsString (text "not-an-ip"); int 80] in
  failed (Connect env_lo_tun0 info w0) /\
  failed (Connect env_lo_tun0 info w1).
Proof.
  apply (error_reporting_is_idempotent env_lo_tun0
           [JsString (text "tun0"); JsString (text "not-an-ip"); int 80]
           w0 w1 eq_refl eq_refl).
  intros i a d rest Hinfo. injection Hinfo as <- <- <- <-. reflexivity.
Defined.

(** An interface name of 20 characters and the address [192.168.100.1001],
    which is not an IPv4 literal, twice: neither invocation fails. *)
Lemma undetected_invalid_arguments_succeed :
  let i := text "tun0tun0tun0tun0tun0" in
  let a := text "192.168.100.1001" in
  let info := [JsString i; JsString a; int 80] in
  IFNAMSIZ - 1 < Z.of_nat (List.length (utf8 i)) /\
  inet_pton4 (utf8 a) = None /\
  fst (Connect env_ok info w0) = Some (int 3) /\
  fst (Connect env_ok info w1) = Some (int 4) /\
  ~ failed (Connect env_ok info w0) /\
  ~ failed (Connect env_ok info w1).
Proof.
  cbv zeta. repeat split; try (vm_compute; reflexivity).
  all: intros [Hnull _]; vm_compute in Hnull; discriminate.
Qed.

(** ** The order of the steps *)

(** C7. Linear ordered execution. The steps of an invocation are an
    initial part of the sequence socket creation, interface binding,
    no-delay tuning, address parsing, TCP connect: one pass, in order,
    each step at most once. No step follows a mandatory step that
    failed. *)
Theorem linear_ordered_execution env info w :
  let t := events env info w in
  steps t `prefix_of` sequence /\
  NoDup (steps t) /\
  short_circuits t = true.
Proof.
  cbv zeta. by_exit env info w.
  all: cbn; rewrite ?lowest_unused_ltb; cbn.
  all: split; [by eexists|]; split; [|done].
  all: repeat (first [apply NoDup_nil_2 | apply NoDup_cons_2]).
  all: rewrite ?not_elem_of_cons; repeat split; try discriminate.
  all: apply not_elem_of_nil.
Qed.

(** * Further properties of [Connect] *)

(** ** The argument checks *)

(** X1. Called with fewer than three arguments (none included), the
    function throws ["Usage: connect(iface, ip, port)"] without a code
    and returns [NULL]; it makes no call to the kernel and leaves the
    descriptor table, [errno] and the log as they were. *)
Theorem too_few_arguments env info w :
  pending w = None ->
  is_napi_ok (cb_info_status env) = true ->
  (List.length info < 3)%nat ->
  Connect env info w =
    (NULL, {| fds := fds w; errno := errno w; trace := trace w;
              pending :=
                Some (JsError None "Usage: connect(iface, ip, port)") |}) /\
  events env info w = [].
Proof.
  intros Hp Hcb Hlen.
  by_exit env info w; try wrong_exit.
  by rewrite thrown_fresh.
Qed.

(** Two arguments. *)
Lemma too_few_arguments_witness :
  events env_ok [JsString (text "tun0"); JsString (text "10.2.0.1")] w0 = [].
Proof.
  apply (too_few_arguments env_ok
           [JsString (text "tun0"); JsString (text "10.2.0.1")] w0);
    [reflexivity | reflexivity | simpl; lia].
Defined.

(** X2. When the interface name is a string and the address argument is
    not, the function throws ["Invalid ip argument"] and returns [NULL],
    whatever the port argument is; no call to the kernel is made and
    nothing else changes. *)
Theorem invalid_ip_argument env i a1 a2 rest w :
  pending w = None ->
  is_napi_ok (cb_info_status env) = true ->
  (forall a, a1 <> JsString a) ->
  let info := JsString i :: a1 :: a2 :: rest in
  Connect env info w =
    (NULL, {| fds := fds w; errno := errno w; trace := trace w;
              pending := Some (JsError None "Invalid ip argument") |}) /\
  events env info w = [].
Proof.
  intros Hp Hcb Ha1 info. subst info.
  by_exit env (JsString i :: a1 :: a2 :: rest) w; try wrong_exit.
  by rewrite thrown_fresh.
Qed.

(** An object where the address is expected. *)
Lemma invalid_ip_argument_witness :
  events env_ok [JsString (text "tun0"); JsObject; int 80] w0 = [].
Proof.
  apply (invalid_ip_argument env_ok (text "tun0") JsObject (int 80) [] w0);
    [reflexivity | reflexivity | intros a; discriminate].
Defined.

(** X3. When the interface name and the address are strings and the port
    argument is not a number (a numeric string is not converted), the
    function throws ["Invalid port argument"] and returns [NULL]; no call
    to the kernel is made and nothing else changes. *)
Theorem invalid_port_argument env i a a2 rest w :
  pending w = None ->
  is_napi_ok (cb_info_status env) = true ->
  (forall d, a2 <> JsNumber d) ->
  let info := JsString i :: JsString a :: a2 :: rest in
  Connect env info w =
    (NULL, {| fds := fds w; errno := errno w; trace := trace w;
              pending := Some (JsError None "Invalid port argument") |}) /\
  events env info w = [].
Proof.
  intros Hp Hcb Ha2 info. subst info.
  by_exit env (JsString i :: JsString a :: a2 :: rest) w; try wrong_exit.
  by rewrite thrown_fresh.
Qed.

(** The port given as the string [8080]. *)
Lemma invalid_port_argument_witness :
  events env_ok
    [JsString (text "tun0"); JsString (text "10.2.0.1");
     JsString (text "8080")] w0 = [].
Proof.
  apply (invalid_port_argument env_ok (text "tun0") (text "10.2.0.1")
           (JsString (text "8080")) [] w0);
    [reflexivity | reflexivity | intros d; discriminate].
Defined.

(** X4. The function makes a call (to the kernel or to the C library)
    exactly when the argument list was obtained and starts with a string,
    a string and a number; otherwise its log is empty. Its first call is
    always [socket (AF_INET, SOCK_STREAM, 0)]. *)
Theorem kernel_called_iff_arguments_read env info w :
  ((is_napi_ok (cb_info_status env) = true /\
    exists i a d rest, info = JsString i :: JsString a :: JsNumber d :: rest)
   <-> events env info w <> []) /\
  (forall e t, events env info w = e :: t -> exists r, e = ev_socket r).
Proof.
  split; [split|].
  - intros (Hcb & i & a & d & rest & ->).
    by_exit env (JsString i :: JsString a :: JsNumber d :: rest) w;
      try wrong_exit; done.
  - by_exit env info w; intros Hlog; try done.
    all: split; [done|]; eauto.
  - by_exit env info w; intros first rest' Hlog; try discriminate.
    all: injection Hlog as <- _; by eexists.
Qed.

(** X5. Arguments after the third are ignored. *)
Theorem extra_arguments_ignored env a0 a1 a2 rest :
  Connect env (a0 :: a1 :: a2 :: rest) = Connect env [a0; a1; a2].
Proof.
  unfold Connect, napi_get_cb_info.
  cbn [firstn app nth]. by rewrite !argc_ge_3.
Qed.

(** ** Socket creation, success and the return value *)

(** X6. When [socket] fails, the function throws ["socket() failed"] with
    the code ["errno"] and returns [NULL]; [socket] is its only call (no
    descriptor exists, and none is closed), the descriptor table is
    unchanged and [errno] holds the kernel's error number. *)
Theorem socket_creation_failure env i a d rest w e :
  pending w = None ->
  is_napi_ok (cb_info_status env) = true ->
  socket_error env = Some e ->
  let info := JsString i :: JsString a :: JsNumber d :: rest in
  let out := Connect env info w in
  fails_with SocketCreateFailed out /\
  pending (snd out) = Some (JsError (Some "errno"%string) "socket() failed") /\
  events env info w = [ev_socket (-1)] /\
  fds (snd out) = fds w /\
  errno (snd out) = e.
Proof.
  intros Hp Hcb Hsock info. cbv zeta. subst info.
  by_exit env (JsString i :: JsString a :: JsNumber d :: rest) w;
    try wrong_exit.
  simplify_eq. split; [fails_here|]. split; [by apply thrown_fresh|done].
Qed.

(** No descriptor left ([EMFILE]). *)
Lemma socket_creation_failure_witness :
  fails_with SocketCreateFailed
    (Connect env_no_descriptors
       [JsString (text "tun0"); JsString (text "10.2.0.1"); int 80] w0).
Proof.
  apply (socket_creation_failure env_no_descriptors (text "tun0")
           (text "10.2.0.1") (Finite 80 0) [] w0 EMFILE);
    reflexivity.
Defined.

(** X7. When every step succeeds, the function returns the new
    descriptor: it is not negative, it was not open before and it is open
    afterwards; no exception is thrown; and the calls made are exactly
    [socket], [SO_BINDTODEVICE] with the interface name, [TCP_NODELAY],
    [inet_pton] and [connect] to the parsed address and port, with no
    [close]. *)
Theorem success_handoff env i a d rest w octets :
  is_napi_ok (cb_info_status env) = true ->
  socket_error env = None ->
  bindtodevice_error env (ifname i) = None ->
  inet_pton4 (c_str (ip_buffer a)) = Some octets ->
  connect_error env (destination env d octets) = None ->
  is_napi_ok (create_int32_status env) = true ->
  let info := JsString i :: JsString a :: JsNumber d :: rest in
  let out := Connect env info w in
  let fd := lowest_unused (fds w) in
  fst out = Some (JsNumber (Finite fd 0)) /\
  0 <= fd /\ (fd ∉ fds w) /\
  fds (snd out) = {[fd]} ∪ fds w /\
  pending (snd out) = pending w /\
  events env info w =
    [ev_socket fd; ev_bind fd i 0; ev_nodelay env fd; ev_pton a 1;
     ev_connect fd (destination env d octets) 0].
Proof.
  intros Hcb Hsock Hbind Hpton Hconn Hcreate info. cbv zeta. subst info.
  by_exit env (JsString i :: JsString a :: JsNumber d :: rest) w;
    try wrong_exit.
  simplify_eq.
  auto 10 using lowest_unused_nonneg, lowest_unused_fresh.
Qed.

(** Scenario A on the interface [tun0]. *)
Lemma success_handoff_witness :
  fst (Connect env_lo_tun0
         [JsString (text "tun0"); JsString (text "10.2.0.1"); int 8080] w0)
  = Some (int 3).
Proof.
  apply (success_handoff env_lo_tun0 (text "tun0") (text "10.2.0.1")
           (Finite 8080 0) [] w0 [10; 2; 0; 1]);
    vm_compute; reflexivity.
Defined.



(** X9. When the connection is established but the number to return
    cannot be created, the function closes the connected socket, throws
    ["Failed to create return value"] and returns [NULL]; the descriptor
    table is back to what it was. *)
Theorem return_value_failure_closes_connection env i a d rest w octets :
  pending w = None ->
  is_napi_ok (cb_info_status env) = true ->
  socket_error env = None ->
  bindtodevice_error env (ifname i) = None ->
  inet_pton4 (c_str (ip_buffer a)) = Some octets ->
  connect_error env (destination env d octets) = None ->
  is_napi_ok (create_int32_status env) = false ->
  let info := JsString i :: JsString a :: JsNumber d :: rest in
  let out := Connect env info w in
  let fd := lowest_unused (fds w) in
  fst out = NULL /\
  pending (snd out) = Some (JsError None "Failed to create return value") /\
  events env info w =
    [ev_socket fd; ev_bind fd i 0; ev_nodelay env fd; ev_pton a 1;
     ev_connect fd (destination env d octets) 0; ev_close fd] /\
  fds (snd out) = fds w.
Proof.
  intros Hp Hcb Hsock Hbind Hpton Hconn Hcreate info. cbv zeta. subst info.
  by_exit env (JsString i :: JsString a :: JsNumber d :: rest) w;
    try wrong_exit.
  simplify_eq. by rewrite thrown_fresh.
Qed.

(** The descriptor table after such a failure. *)
Lemma return_value_failure_closes_connection_witness :
  fds (snd (Connect env_no_return_value
              [JsString (text "tun0"); JsString (text "10.2.0.1"); int 80]
              w0))
  = fds w0.
Proof.
  apply (return_value_failure_closes_connection env_no_return_value
           (text "tun0") (text "10.2.0.1") (Finite 80 0) [] w0
           [10; 2; 0; 1]);
    vm_compute; reflexivity.
Defined.

(** X10. Entered with no exception pending, the function returns [NULL]
    exactly when it leaves an exception pending: it never returns [NULL]
    silently and never throws while returning a descriptor. *)
Theorem null_iff_thrown env info w :
  pending w = None ->
  let out := Connect env info w in
  fst out = NULL <-> pending (snd out) <> None.
Proof.
  intros Hp. cbv zeta.
  by_exit env info w; rewrite ?thrown_fresh by done; done.
Qed.

(** Scenario B leaves an exception. *)
Lemma null_iff_thrown_witness :
  pending (snd (Connect env_lo_tun0
    [JsString (text "doesnotexist0"); JsString (text "127.0.0.1"); int 80]
    w0)) <> None.
Proof.
  apply (null_iff_thrown env_lo_tun0
           [JsString (text "doesnotexist0"); JsString (text "127.0.0.1");
            int 80] w0);
    reflexivity.
Defined.

(** No event of the log is a failed system call. *)
Ltac no_failed_syscall H :=
  let e := fresh "e" in
  let Hin := fresh "Hin" in
  let Hfail := fresh "Hfail" in
  let Hret := fresh "Hret" in
  destruct H as (e & Hin & Hfail & Hret);
  cbn in Hin;
  repeat (destruct Hin as [<-|Hin]; [cbn in Hfail, Hret|]);
  try done; try lia;
  rewrite ?lowest_unused_ltb in Hfail; done.

(** X11. The error thrown carries the code ["errno"] exactly when a system
    call the function depends on ([socket], [SO_BINDTODEVICE] or
    [connect]) returned a negative value; the errors about the arguments,
    the address and the return value carry no code, also when
    [TCP_NODELAY] failed. *)
Theorem errno_code_marks_system_call_failures env info w err :
  pending w = None ->
  pending (snd (Connect env info w)) = Some err ->
  err_code err = Some "errno"%string <->
  exists e, In e (events env info w) /\ step_failed e = true /\ ev_ret e < 0.
Proof.
  intros Hp. by_exit env info w; rewrite ?thrown_fresh by done.
  all: try (rewrite Hp; discriminate).
  all: intros [= <-]; cbn [err_code]; split; intros Hcode; try done.
  all: try solve [no_failed_syscall Hcode].
  all: eexists (Event _ (-1)); cbn; split; [tauto|done].
Qed.

(** Scenario D: the failed call is [connect]. *)
Lemma errno_code_marks_system_call_failures_witness :
  exists e,
    In e (events (env_refused ECONNREFUSED)
            [JsString (text "lo"); JsString (text "127.0.0.1"); int 9] w0) /\
    step_failed e = true /\ ev_ret e < 0.
Proof.
  apply (errno_code_marks_system_call_failures (env_refused ECONNREFUSED)
           [JsString (text "lo"); JsString (text "127.0.0.1"); int 9] w0
           (JsError (Some "errno"%string) "connect() failed"));
    reflexivity.
Defined.

(** ** The destination *)

Lemma inet_pton4_loop_octets src saw octets prev cur o :
  inet_pton4_loop src saw octets prev cur = Some o ->
  Forall octet prev -> octet cur -> octets <= 4 ->
  Z.of_nat (List.length prev) + (if saw then 1 else 0) = octets ->
  (saw = false -> octets < 4) ->
  List.length o = 4%nat /\ Forall octet o.
Proof.
  revert saw octets prev cur.
  induction src as [|ch src IH]; intros saw octets prev cur H Hprev Hcur Hle
    Hlen Hdot; cbn [inet_pton4_loop] in H.
  - destruct (Z.ltb_spec octets 4); [discriminate|]. simplify_eq.
    destruct saw; [|specialize (Hdot eq_refl); lia].
    split; [rewrite length_app; simpl; lia|].
    apply Forall_app; split; [done|by constructor].
  - destruct ((48 <=? ch) && (ch <=? 57)) eqn:Hdigit.
    + apply andb_true_iff in Hdigit.
      destruct (saw && (cur =? 0)); [discriminate|].
      destruct (Z.ltb_spec 255 (cur * 10 + (ch - 48))); [discriminate|].
      assert (octet (cur * 10 + (ch - 48))) by (unfold octet in *; lia).
      destruct saw.
      * eapply IH; eauto; discriminate.
      * destruct (Z.ltb_spec 4 (octets + 1)); [discriminate|].
        eapply IH; eauto; try lia; discriminate.
    + destruct ((ch =? 46) && saw) eqn:Hsep; [|discriminate].
      apply andb_true_iff in Hsep as [_ ->].
      destruct (Z.eqb_spec octets 4); [discriminate|].
      eapply IH; eauto.
      all: try (apply Forall_app; split; [done|by constructor]).
      all: try (rewrite length_app; simpl); unfold octet; try lia.
Qed.

Lemma inet_pton4_octets src o :
  inet_pton4 src = Some o -> List.length o = 4%nat /\ Forall octet o.
Proof.
  intros H. eapply inet_pton4_loop_octets; eauto; done.
Qed.

Lemma htons_range le x : 0 <= htons le x < 65536.
Proof.
  unfold htons.
  assert (0 <= x mod 65536 < 65536) by (apply Z.mod_pos_bound; lia).
  destruct le; [by apply bswap_16_range|done].
Qed.

(** What a [connect] in the log tells about the invocation. *)
Lemma connect_event_inv env info w fd dst r :
  In (Event (Cconnect fd dst) r) (events env info w) ->
  exists i a d rest octets t,
    info = JsString i :: JsString a :: JsNumber d :: rest /\
    fd = lowest_unused (fds w) /\ (fd ∉ fds w) /\
    inet_pton4 (c_str (ip_buffer a)) = Some octets /\
    dst = destination env d octets /\
    events env info w =
      ev_socket fd :: ev_bind fd i 0 :: ev_nodelay env fd :: ev_pton a 1 ::
      ev_connect fd dst r :: t.
Proof.
  by_exit env info w; cbn; intros Hin.
  all: repeat (destruct Hin as [Hin|Hin]; [try discriminate|]); try done.
  all: unfold ev_connect in *; simplify_eq.
  all: eexists _, _, _, _, _, _;
    eauto 10 using lowest_unused_fresh.
Qed.


(** X13. Every destination given to [connect] is a well-formed IPv4 socket
    address: family [AF_INET], a port field in [0, 65535] and four octets
    in [0, 255]. *)
Theorem destination_well_formed env info w fd dst r :
  In (Event (Cconnect fd dst) r) (events env info w) ->
  sin_family dst = AF_INET /\
  0 <= sin_port dst < 65536 /\
  List.length (sin_addr dst) = 4%nat /\
  Forall octet (sin_addr dst).
Proof.
  intros Hin.
  destruct (connect_event_inv _ _ _ _ _ _ Hin)
    as (i & a & d & rest & octets & t & _ & _ & _ & Hpton & -> & _).
  cbn. split; [done|]. split; [apply htons_range|].
  by apply inet_pton4_octets in Hpton.
Qed.


(** The address of a successful run. *)
Lemma destination_well_formed_witness :
  List.length
    (sin_addr (destination env_ok (Finite 8080 0) [10; 2; 0; 1])) = 4%nat.
Proof.
  apply (destination_well_formed env_ok
           [JsString (text "tun0"); JsString (text "10.2.0.1"); int 8080]
           w0 3 (destination env_ok (Finite 8080 0) [10; 2; 0; 1]) 0).
  vm_compute. tauto.
Defined.

(** ** NUL characters in the strings *)

Lemma c_str_app_nul (X Y : list Z) : c_str (X ++ 0 :: Y) = c_str X.
Proof.
  induction X as [|b X IH]; simpl; [done|].
  destruct (b =? 0); [done|]. by rewrite IH.
Qed.

Lemma c_str_app_congr (X Y Y' : list Z) :
  c_str Y = c_str Y' -> c_str (X ++ Y) = c_str (X ++ Y').
Proof.
  intros H. induction X as [|b X IH]; simpl; [done|].
  destruct (b =? 0); [done|]. by rewrite IH.
Qed.

Lemma c_str_WriteUtf8_nul cap pre post :
  c_str (WriteUtf8 cap (pre ++ 0 :: post)) = c_str (WriteUtf8 cap pre).
Proof.
  revert cap. induction pre as [|c pre IH]; intros cap.
  - cbn [app WriteUtf8]. change (utf8_encode 0) with [0].
    by destruct (_ <=? _).
  - cbn [app WriteUtf8]. destruct (_ <=? _); [|done].
    apply c_str_app_congr, IH.
Qed.

Lemma Connect_same_ifname env i i' a1 a2 rest w :
  ifname i = ifname i' ->
  Connect env (JsString i :: a1 :: a2 :: rest) w
  = Connect env (JsString i' :: a1 :: a2 :: rest) w.
Proof.
  intros Hname.
  by_exits env (JsString i :: a1 :: a2 :: rest) w
           env (JsString i' :: a1 :: a2 :: rest) w.
  all: simplify_eq; unfold ev_bind; rewrite ?Hname; try done.
  congruence.
Qed.

(** X14. An interface name is read up to its first NUL character: what
    follows the NUL has no effect on the invocation. *)
Theorem nul_cuts_interface_name env pre post a1 a2 rest w :
  Connect env (JsString (pre ++ 0 :: post) :: a1 :: a2 :: rest) w
  = Connect env (JsString pre :: a1 :: a2 :: rest) w.
Proof. apply Connect_same_ifname, c_str_WriteUtf8_nul. Qed.

Lemma Connect_same_address env i a a' a2 rest w :
  c_str (ip_buffer a) = c_str (ip_buffer a') ->
  let info := JsString i :: JsString a :: a2 :: rest in
  let info' := JsString i :: JsString a' :: a2 :: rest in
  let out := Connect env info w in
  let out' := Connect env info' w in
  fst out = fst out' /\
  pending (snd out) = pending (snd out') /\
  fds (snd out) = fds (snd out') /\
  errno (snd out) = errno (snd out') /\
  map ev_ret (events env info w) = map ev_ret (events env info' w) /\
  forall fd dst r,
    In (Event (Cconnect fd dst) r) (events env info w) <->
    In (Event (Cconnect fd dst) r) (events env info' w).
Proof.
  intros Htext. cbv zeta.
  by_exits env (JsString i :: JsString a :: a2 :: rest) w
           env (JsString i :: JsString a' :: a2 :: rest) w.
  all: simplify_eq; try done.
  all: try match goal with
       | H1 : inet_pton4 _ = Some ?o1, H2 : inet_pton4 _ = Some ?o2 |- _ =>
           assert (o1 = o2) by congruence; subst o1
       end.
  all: repeat match goal with |- _ /\ _ => split end;
    try done; try congruence.
  all: intros fd dst r; cbn;
    unfold ev_socket, ev_bind, ev_pton, ev_connect, ev_close;
    split; intros Hin;
    repeat (destruct Hin as [Hin|Hin]; [try discriminate|]); try done;
    simplify_eq; auto 10.
Qed.

(** X15. An address is parsed up to its first NUL character: what follows
    the NUL changes neither the value returned, nor the exception, the
    descriptor table, [errno], the values the calls return, nor the
    destination of [connect]. *)
Theorem nul_cuts_address env i pre post a2 rest w :
  let info := JsString i :: JsString (pre ++ 0 :: post) :: a2 :: rest in
  let info' := JsString i :: JsString pre :: a2 :: rest in
  let out := Connect env info w in
  let out' := Connect env info' w in
  fst out = fst out' /\
  pending (snd out) = pending (snd out') /\
  fds (snd out) = fds (snd out') /\
  errno (snd out) = errno (snd out') /\
  map ev_ret (events env info w) = map ev_ret (events env info' w) /\
  forall fd dst r,
    In (Event (Cconnect fd dst) r) (events env info w) <->
    In (Event (Cconnect fd dst) r) (events env info' w).
Proof. apply Connect_same_address, c_str_WriteUtf8_nul. Qed.

(** ** The port, for every number *)

Lemma wrap_int32_mod n : wrap_int32 n mod 65536 = n mod 65536.
Proof.
  unfold wrap_int32.
  change (2 ^ 31) with 2147483648. change (2 ^ 32) with 4294967296.
  Z.div_mod_to_equations. lia.
Qed.

(** X16. Every JavaScript number is accepted as a port. Once the socket is
    created and bound and the address parsed, [connect] is issued to the
    integer part of the number modulo 65536, and to port 0 for NaN and
    the infinities. *)
Theorem port_of_any_number env i a d rest w octets :
  is_napi_ok (cb_info_status env) = true ->
  socket_error env = None ->
  bindtodevice_error env (ifname i) = None ->
  inet_pton4 (c_str (ip_buffer a)) = Some octets ->
  let info := JsString i :: JsString a :: JsNumber d :: rest in
  let fd := lowest_unused (fds w) in
  exists dst r,
    In (ev_connect fd dst r) (events env info w) /\
    ntohs (little_endian env) (sin_port dst) =
      match d with
      | Finite m e =>
          (if 0 <=? e then m * 2 ^ e else Z.quot m (2 ^ (- e))) mod 65536
      | NaN | Infinity _ => 0
      end.
Proof.
  intros Hcb Hsock Hbind Hpton info. cbv zeta. subst info.
  by_exit env (JsString i :: JsString a :: JsNumber d :: rest) w;
    try wrong_exit.
  all: simplify_eq; eexists _, _.
  all: split; [simpl; eauto 10|].
  all: unfold destination; cbn [sin_port]; rewrite ntohs_htons.
  all: match goal with |- context [ToInt32 ?x] => destruct x end;
    [apply wrap_int32_mod|done|done].
Qed.

(** NaN targets port 0. *)
Lemma port_of_any_number_witness :
  let info :=
    [JsString (text "tun0"); JsString (text "10.2.0.1"); JsNumber NaN] in
  exists dst r,
    In (ev_connect 3 dst r) (events env_ok info w0) /\
    ntohs true (sin_port dst) = 0.
Proof.
  apply (port_of_any_number env_ok (text "tun0") (text "10.2.0.1") NaN [] w0
           [10; 2; 0; 1]);
    vm_compute; reflexivity.
Defined.

(** X17. An interface name that is empty, or starts with a NUL character,
    is not refused: a socket is created and [SO_BINDTODEVICE] is called
    with an empty device name. *)
Theorem empty_interface_name_reaches_kernel env i a d rest w :
  ifname i = [] ->
  pending w = None ->
  is_napi_ok (cb_info_status env) = true ->
  socket_error env = None ->
  let info := JsString i :: JsString a :: JsNumber d :: rest in
  let fd := lowest_unused (fds w) in
  ~ fails_with InvalidArgument (Connect env info w) /\
  exists t,
    events env info w =
      ev_socket fd ::
      Event (Csetsockopt fd (SO_BINDTODEVICE []))
        (ret_of (bindtodevice_error env [])) :: t.
Proof.
  intros Hname Hp Hcb Hsock info. cbv zeta. subst info.
  by_exit env (JsString i :: JsString a :: JsNumber d :: rest) w;
    try wrong_exit.
  all: simplify_eq; unfold ev_bind; rewrite Hname in *.
  all: split; [intros Hfail; other_kind Hfail|].
  all: match goal with
       | H : bindtodevice_error _ _ = _ |- _ => rewrite H
       end; by eexists.
Qed.

(** The empty string as the interface name. *)
Lemma empty_interface_name_reaches_kernel_witness :
  exists t,
    events env_ok [JsString []; JsString (text "10.2.0.1"); int 80] w0 =
      ev_socket 3 :: Event (Csetsockopt 3 (SO_BINDTODEVICE [])) 0 :: t.
Proof.
  apply (empty_interface_name_reaches_kernel env_ok [] (text "10.2.0.1")
           (Finite 80 0) [] w0);
    reflexivity.
Defined.

(** Well-typed arguments reach [socket], even when it fails. *)
Lemma kernel_called_iff_arguments_read_witness :
  events env_no_descriptors
    [JsString (text "tun0"); JsString (text "10.2.0.1"); int 80] w0
  <> [].
Proof.
  apply (proj1 (kernel_called_iff_arguments_read env_no_descriptors
           [JsString (text "tun0"); JsString (text "10.2.0.1"); int 80] w0)).
  split; [reflexivity|]. by eexists _, _, _, _.
Defined.
